(** * gortc/stun: the transaction client (client.go) and its collaborators

    A shallow embedding of the STUN client: the [Client] struct, its
    configuration options, [StartTo] / [Start] / [Indicate] / [DoTo] / [Do],
    [ReadFrom], [Close], and the two background loops [readUntilClosed] and
    [collectUntilClosed].

    The client talks to two Go interfaces, [ClientAgent] and [PacketConn].
    An interface value is modelled as a package of a state type, a method
    table over that type and a current state; a method call replaces the
    state.  Every call made through an interface is also appended to a trace,
    so that the order of calls can be stated.

    The model is sequential: one goroutine runs at a time.  Mutexes are
    therefore left out, and each loop is given as its body (one iteration,
    valid from any state the other goroutines may have produced) together
    with a bounded iteration of that body. *)

From Stdlib Require Import ZArith NArith List String Bool Lia.
From Stdlib.Strings Require Import Byte.
From stdpp Require Import base option list gmap.

Local Open Scope Z_scope.

Set Warnings "-register-all".

(** ** Basic data *)

(** [time.Time], as a count of nanoseconds since the zero Time. *)
Abbreviation time := Z (only parsing).

(** [time.Time{}] *)
Definition zero_time : time := 0.

(** [net.Addr]; the nil interface value is [None : option Addr]. *)
Abbreviation Addr := string (only parsing).

(** [[TransactionIDSize]byte], the twelve bytes read as one big-endian
    96-bit number. *)
Abbreviation transactionID := N (only parsing).

Definition TransactionIDSize : nat := 12.

(** Go's [error]: the package's sentinel values, the three [io] sentinels the
    tests use, the two composite errors of client.go, and any other
    [errors.New] value.  A nil error is [None : option error]. *)
Inductive error : Type :=
| ErrNoConnection
| ErrConnection
| ErrNet
| ErrClientClosed
| ErrClientNotInitialized
| ErrAgentClosed
| ErrTransactionExists
| ErrTransactionNotExists
| ErrTransactionStopped
| ErrTransactionTimeOut
| io_EOF
| io_ErrUnexpectedEOF
| io_ErrClosedPipe
| StopErr (Err Cause : option error)
| CloseErr (AgentErr ConnectionErr : option error)
| errors_New (text : string).

(** [err == ErrAgentClosed] *)
Definition is_ErrAgentClosed (err : option error) : bool :=
  match err with
  | Some ErrAgentClosed => true
  | _ => false
  end.

(** A raw attribute of a message: type, declared length, value. *)
Record RawAttribute : Type := mkRawAttribute {
  AttrType : N;
  AttrLength : N;
  AttrValue : list byte
}.

(** [Message]: the cached header fields, the attributes and the raw bytes. *)
Record Message : Type := mkMessage {
  MType : N;
  Length : N;
  TransactionID : transactionID;
  Attributes : list RawAttribute;
  Raw : list byte
}.

(** [new(Message)] *)
Definition new_Message : Message :=
  {| MType := 0%N; Length := 0%N; TransactionID := 0%N;
     Attributes := []; Raw := [] |}.

(** [m.Raw = raw] *)
Definition set_Raw (raw : list byte) (m : Message) : Message :=
  {| MType := MType m; Length := Length m; TransactionID := TransactionID m;
     Attributes := Attributes m; Raw := raw |}.

(** [Event], what a handler receives. *)
Record Event : Type := mkEvent {
  EvTransactionID : transactionID;
  EvMessage : option Message;
  EvError : option error
}.

(** [Handler] values.  The client never calls a handler itself, it only hands
    it to the agent, so a handler is a name: either one supplied by a caller,
    or the pooled [callbackWaitHandler] that [DoTo] borrows. *)
Inductive Handler : Type :=
| HandlerFunc (name : nat)
| callbackWaitHandler.

(** ** The two interfaces *)

Module ClientAgent.

(** The method set of [ClientAgent], over the implementation's state. *)
Class Methods (A : Type) : Type := {
  Process : Message → A → option error * A;
  Close : A → option error * A;
  Start : transactionID → time → Handler → A → option error * A;
  Stop : transactionID → A → option error * A;
  Collect : time → A → option error * A
}.

(** An interface value: dynamic type, method table, state. *)
Record t : Type := pack {
  state_type : Type;
  impl : Methods state_type;
  state : state_type
}.

(** A method call through the interface. *)
Definition call {X : Type}
    (f : ∀ A : Type, Methods A → A → X * A) (v : t) : X * t :=
  let '(x, s) := f (state_type v) (impl v) (state v) in
  (x, {| state_type := state_type v; impl := impl v; state := s |}).

(** The five methods, called on an interface value. *)
Definition process (m : Message) : t → option error * t :=
  call (λ A I, @Process A I m).
Definition close : t → option error * t :=
  call (λ A I, @Close A I).
Definition start (id : transactionID) (deadline : time) (h : Handler)
    : t → option error * t :=
  call (λ A I, @Start A I id deadline h).
Definition stop (id : transactionID) : t → option error * t :=
  call (λ A I, @Stop A I id).
Definition collect (gcTime : time) : t → option error * t :=
  call (λ A I, @Collect A I gcTime).

End ClientAgent.

Module PacketConn.

(** The method set of [PacketConn].  [ReadFrom b] gets the caller's buffer
    and returns its new contents together with [(n, addr, err)]. *)
Class Methods (K : Type) : Type := {
  ReadFrom : list byte → K → (list byte * Z * option Addr * option error) * K;
  WriteTo : list byte → option Addr → K → (Z * option error) * K;
  Close : K → option error * K;
  LocalAddr : K → option Addr
}.

Record t : Type := pack {
  state_type : Type;
  impl : Methods state_type;
  state : state_type
}.

Definition call {X : Type}
    (f : ∀ K : Type, Methods K → K → X * K) (v : t) : X * t :=
  let '(x, s) := f (state_type v) (impl v) (state v) in
  (x, {| state_type := state_type v; impl := impl v; state := s |}).

(** The methods, called on an interface value. *)
Definition readFrom (b : list byte)
    : t → (list byte * Z * option Addr * option error) * t :=
  call (λ K I, @ReadFrom K I b).
Definition writeTo (b : list byte) (addr : option Addr)
    : t → (Z * option error) * t :=
  call (λ K I, @WriteTo K I b addr).
Definition close : t → option error * t :=
  call (λ K I, @Close K I).
Definition localAddr (v : t) : option Addr :=
  @LocalAddr (state_type v) (impl v) (state v).

End PacketConn.

(** ** The client and the world it runs in *)

(** The [Client] struct.  [close] is the channel [close chan struct{}]: [None]
    is the nil channel, [Some false] an open one, [Some true] a closed one.
    [wg] is the counter of the [sync.WaitGroup]; [closedMux] has no content
    in a sequential model. *)
Record Client : Type := mkClient {
  a : option ClientAgent.t;
  c : option PacketConn.t;
  serveraddr : option Addr;
  close : option bool;
  gcRate : Z;
  closed : bool;
  wg : Z
}.

(** What the trace records: every call through one of the two interfaces,
    and the client's own synchronisation steps. *)
Inductive Call : Type :=
| AgentProcess (m : Message)
| AgentClose
| AgentStart (id : transactionID) (deadline : time) (h : Handler)
| AgentStop (id : transactionID)
| AgentCollect (gcTime : time)
| ConnReadFrom
| ConnWriteTo (b : list byte) (addr : option Addr)
| ConnClose
| ConnLocalAddr
| ChanClose
| WgWait
| GoReadUntilClosed
| GoCollectUntilClosed
| TickerStop.

Record World : Type := mkWorld {
  client : Client;
  trace : list Call
}.

(** Values a goroutine can panic with. *)
Inductive PanicValue : Type :=
| PanicErr (e : error)
| PanicText (s : string)
| NilDereference
| SliceBounds
| CloseOfClosedChannel
| CloseOfNilChannel
| NegativeWaitGroup
| NonPositiveTickerInterval.

(** How a run of a piece of code ends: it returns, it panics, it is parked on
    a synchronisation primitive that only another goroutine can release, or
    the model's iteration budget ran out while a loop was still going. *)
Inductive Outcome (X : Type) : Type :=
| Ret (x : X)
| Panic (p : PanicValue)
| Blocked
| OutOfFuel.
Arguments Ret {X} x.
Arguments Panic {X} p.
Arguments Blocked {X}.
Arguments OutOfFuel {X}.

(** The state-and-panic monad the client's methods run in. *)
Definition M (X : Type) : Type := World → Outcome X * World.

#[global] Instance M_ret : MRet M := λ X x w, (Ret x, w).

#[global] Instance M_bind : MBind M := λ X Y k m w,
  match m w with
  | (Ret x, w') => k x w'
  | (Panic p, w') => (Panic p, w')
  | (Blocked, w') => (Blocked, w')
  | (OutOfFuel, w') => (OutOfFuel, w')
  end.

Definition panic {X : Type} (p : PanicValue) : M X := λ w, (Panic p, w).
Definition blocked {X : Type} : M X := λ w, (Blocked, w).
Definition out_of_fuel {X : Type} : M X := λ w, (OutOfFuel, w).

Definition getClient : M Client := λ w, (Ret (client w), w).

Definition modifyClient (f : Client → Client) : M unit :=
  λ w, (Ret tt, {| client := f (client w); trace := trace w |}).

Definition record (e : Call) : M unit :=
  λ w, (Ret tt, {| client := client w; trace := trace w ++ [e] |}).

(** [defer d; body]: [d] runs when [body] returns and when it panics. *)
Definition defer {X : Type} (d : M unit) (body : M X) : M X := λ w,
  match body w with
  | (Ret x, w') =>
      match d w' with
      | (Ret _, w'') => (Ret x, w'')
      | (Panic p, w'') => (Panic p, w'')
      | (Blocked, w'') => (Blocked, w'')
      | (OutOfFuel, w'') => (OutOfFuel, w'')
      end
  | (Panic p, w') =>
      match d w' with
      | (Ret _, w'') => (Panic p, w'')
      | (Panic p', w'') => (Panic p', w'')
      | (Blocked, w'') => (Blocked, w'')
      | (OutOfFuel, w'') => (OutOfFuel, w'')
      end
  | (Blocked, w') => (Blocked, w')
  | (OutOfFuel, w') => (OutOfFuel, w')
  end.

Definition set_a (v : option ClientAgent.t) (cl : Client) : Client :=
  {| a := v; c := c cl; serveraddr := serveraddr cl; close := close cl;
     gcRate := gcRate cl; closed := closed cl; wg := wg cl |}.

Definition set_c (v : option PacketConn.t) (cl : Client) : Client :=
  {| a := a cl; c := v; serveraddr := serveraddr cl; close := close cl;
     gcRate := gcRate cl; closed := closed cl; wg := wg cl |}.

Definition set_serveraddr (v : option Addr) (cl : Client) : Client :=
  {| a := a cl; c := c cl; serveraddr := v; close := close cl;
     gcRate := gcRate cl; closed := closed cl; wg := wg cl |}.

Definition set_close (v : option bool) (cl : Client) : Client :=
  {| a := a cl; c := c cl; serveraddr := serveraddr cl; close := v;
     gcRate := gcRate cl; closed := closed cl; wg := wg cl |}.

Definition set_gcRate (v : Z) (cl : Client) : Client :=
  {| a := a cl; c := c cl; serveraddr := serveraddr cl; close := close cl;
     gcRate := v; closed := closed cl; wg := wg cl |}.

Definition set_closed (v : bool) (cl : Client) : Client :=
  {| a := a cl; c := c cl; serveraddr := serveraddr cl; close := close cl;
     gcRate := gcRate cl; closed := v; wg := wg cl |}.

Definition set_wg (v : Z) (cl : Client) : Client :=
  {| a := a cl; c := c cl; serveraddr := serveraddr cl; close := close cl;
     gcRate := gcRate cl; closed := closed cl; wg := v |}.

(** A call [c.a.method(...)]: a nil interface panics, otherwise the agent's
    state is replaced and the call is recorded. *)
Definition agent {X : Type} (e : Call)
    (f : ClientAgent.t → X * ClientAgent.t) : M X := λ w,
  match a (client w) with
  | None => (Panic NilDereference, w)
  | Some v =>
      let '(x, v') := f v in
      (Ret x, {| client := set_a (Some v') (client w);
                 trace := trace w ++ [e] |})
  end.

(** A call [c.c.method(...)]. *)
Definition conn {X : Type} (e : Call)
    (f : PacketConn.t → X * PacketConn.t) : M X := λ w,
  match c (client w) with
  | None => (Panic NilDereference, w)
  | Some v =>
      let '(x, v') := f v in
      (Ret x, {| client := set_c (Some v') (client w);
                 trace := trace w ++ [e] |})
  end.

(** ** The transaction agent *)

Module Agent.

(** Modelled from the spec: agent.go, the implementation of the transaction
    agent (the registry, [Start], [Stop], [Process], [Collect], [Close]), is
    not among the sources; only its tests are.  The state is the mapping
    from transaction id to (deadline, handler), the closed flag and the
    optional default handler of section 4.3.  A handler that is fired is
    recorded, with the event it receives, in [fired]. *)
Record t : Type := mk {
  transactions : gmap N (time * Handler);
  closed : bool;
  handler : option Handler;
  fired : list (Handler * Event)
}.

(** Modelled from the spec: [NewAgent(AgentOptions{Handler: h})], an open
    agent with no registration. *)
Definition NewAgent (h : option Handler) : t :=
  {| transactions := ∅; closed := false; handler := h; fired := [] |}.

Definition errorEvent (id : transactionID) (e : error) : Event :=
  {| EvTransactionID := id; EvMessage := None; EvError := Some e |}.

(** Modelled from the spec: "register; fails with TRANSACTION_EXISTS on
    duplicate id; fails with AGENT_CLOSED if closed". *)
Definition Start (id : transactionID) (deadline : time) (h : Handler)
    (ag : t) : option error * t :=
  if closed ag then (Some ErrAgentClosed, ag)
  else match transactions ag !! id with
       | Some _ => (Some ErrTransactionExists, ag)
       | None =>
           (None, {| transactions := <[id := (deadline, h)]> (transactions ag);
                     closed := closed ag; handler := handler ag;
                     fired := fired ag |})
       end.

(** Modelled from the spec: "remove and fire handler with
    TRANSACTION_STOPPED; fails with TRANSACTION_NOT_EXISTS if unknown; fails
    with AGENT_CLOSED if closed". *)
Definition Stop (id : transactionID) (ag : t) : option error * t :=
  if closed ag then (Some ErrAgentClosed, ag)
  else match transactions ag !! id with
       | None => (Some ErrTransactionNotExists, ag)
       | Some (_, h) =>
           (None, {| transactions := delete id (transactions ag);
                     closed := closed ag; handler := handler ag;
                     fired := fired ag
                                ++ [(h, errorEvent id ErrTransactionStopped)] |})
       end.

(** Modelled from the spec: "look up by message's transaction id; if
    present, remove and fire handler with the message; if absent, hand to
    the default handler (if any)"; "it returns AGENT_CLOSED only if called
    post-close". *)
Definition Process (m : Message) (ag : t) : option error * t :=
  if closed ag then (Some ErrAgentClosed, ag)
  else
    let id := TransactionID m in
    let ev := {| EvTransactionID := id; EvMessage := Some m;
                 EvError := None |} in
    match transactions ag !! id with
    | Some (_, h) =>
        (None, {| transactions := delete id (transactions ag);
                  closed := closed ag; handler := handler ag;
                  fired := fired ag ++ [(h, ev)] |})
    | None =>
        (None, {| transactions := transactions ag;
                  closed := closed ag; handler := handler ag;
                  fired := fired ag
                             ++ match handler ag with
                                | Some h => [(h, ev)]
                                | None => []
                                end |})
    end.

(** The registrations that [Collect now] takes out: deadline ≤ now. *)
Definition timedOut (now : time) (ag : t) : list (N * (time * Handler)) :=
  filter (λ r, r.2.1 ≤ now) (map_to_list (transactions ag)).

(** Modelled from the spec: "for every registration whose deadline ≤ now,
    remove it and fire handler with TRANSACTION_TIMEOUT".  The collector
    loop of section 4.4 expects AGENT_CLOSED from a closed agent, which has
    no registration left to collect. *)
Definition Collect (now : time) (ag : t) : option error * t :=
  if closed ag then (Some ErrAgentClosed, ag)
  else
    let toRemove := timedOut now ag in
    (None, {| transactions :=
                foldr (λ r m, delete r.1 m) (transactions ag) toRemove;
              closed := closed ag; handler := handler ag;
              fired := fired ag
                         ++ map (λ r, (r.2.2, errorEvent r.1 ErrTransactionTimeOut))
                                toRemove |}).

(** Modelled from the spec: "set closed, drain all registrations firing
    AGENT_CLOSED to each.  Idempotent calls return an error." *)
Definition Close (ag : t) : option error * t :=
  if closed ag then (Some ErrAgentClosed, ag)
  else
    (None, {| transactions := ∅; closed := true; handler := handler ag;
              fired := fired ag
                         ++ map (λ r, (r.2.2, errorEvent r.1 ErrAgentClosed))
                                (map_to_list (transactions ag)) |}).

(** [*Agent] implements [ClientAgent]. *)
#[global] Instance methods : ClientAgent.Methods t := {|
  ClientAgent.Process := Process;
  ClientAgent.Close := Close;
  ClientAgent.Start := Start;
  ClientAgent.Stop := Stop;
  ClientAgent.Collect := Collect
|}.

(** A closed agent holds no registration. *)
Definition wf (ag : t) : Prop := closed ag = true → transactions ag = ∅.

(** The events of [l] that belong to transaction [id]. *)
Definition firedFor (id : transactionID) (l : list (Handler * Event))
    : list (Handler * Event) :=
  filter (λ he, EvTransactionID he.2 = id) l.

End Agent.

(** ** Telling STUN datagrams apart *)

Definition magicCookie : N := 0x2112A442.
Definition messageHeaderSize : nat := 20.

(** Big-endian value of a byte string ([bin.Uint16], [bin.Uint32], ...). *)
Definition bigEndian (bs : list byte) : N :=
  fold_left (λ acc x, acc * 256 + Byte.to_N x)%N bs 0%N.

(** [b[i:j]] for in-range bounds. *)
Definition slice (b : list byte) (i j : nat) : list byte :=
  take (j - i) (drop i b).

(** Modelled from the spec: [IsMessage] is not among the sources.  "Length ≥
    20, top two bits of bytes[0] are zero, bytes[4..8] equal the magic
    cookie." *)
Definition IsMessage (b : list byte) : bool :=
  (messageHeaderSize <=? length b)%nat
  && match b with
     | b0 :: _ => (N.shiftr (Byte.to_N b0) 6 =? 0)%N
     | [] => false
     end
  && (bigEndian (slice b 4 8) =? magicCookie)%N.

Definition ErrUnexpectedHeaderEOF : error := errors_New "unexpected EOF: not enough bytes to read header".
Definition ErrAttributeHeaderShort : error := errors_New "attribute header short".
Definition ErrBadMagicCookie : error := errors_New "bad magic cookie".
Definition ErrBadLength : error := errors_New "bad length".
Definition ErrBadFirstBits : error := errors_New "first two bits are not zero".

(** Attribute section of a message: type, length, value, zero padding up to
    the next multiple of four. *)
Fixpoint decodeAttributes (fuel : nat) (b : list byte)
    : error + list RawAttribute :=
  match b with
  | [] => inr []
  | _ :: _ =>
      match fuel with
      | O => inl ErrAttributeHeaderShort
      | S fuel' =>
          if (length b <? 4)%nat then inl ErrAttributeHeaderShort
          else
            let t := bigEndian (slice b 0 2) in
            let l := bigEndian (slice b 2 4) in
            let padded := (N.to_nat l + (4 - N.to_nat l mod 4) mod 4)%nat in
            if (length b <? 4 + padded)%nat then inl ErrUnexpectedHeaderEOF
            else
              match decodeAttributes fuel' (drop (4 + padded) b) with
              | inl e => inl e
              | inr rest =>
                  inr ({| AttrType := t; AttrLength := l;
                          AttrValue := slice b 4 (4 + N.to_nat l) |} :: rest)
              end
      end
  end.

(** Modelled from the spec: [Message.Decode] is not among the sources.
    "parse header, validate magic cookie, length consistency (header.length +
    20 == total), 4-byte alignment of each attribute, and that the first two
    bits of byte 0 are zero."  The client only asks whether decoding
    succeeded; its functions below take the decoder as a parameter, and this
    one instantiates it in the examples. *)
Definition Decode (m : Message) : option error * Message :=
  let buf := Raw m in
  if (length buf <? messageHeaderSize)%nat then (Some ErrUnexpectedHeaderEOF, m)
  else
    let t := bigEndian (slice buf 0 2) in
    let size := bigEndian (slice buf 2 4) in
    let cookie := bigEndian (slice buf 4 8) in
    let id := bigEndian (slice buf 8 20) in
    if negb (cookie =? magicCookie)%N then (Some ErrBadMagicCookie, m)
    else if negb (N.shiftr t 14 =? 0)%N then (Some ErrBadFirstBits, m)
    else if negb (size mod 4 =? 0)%N then (Some ErrBadLength, m)
    else if negb (N.to_nat size + messageHeaderSize =? length buf)%nat
         then (Some ErrBadLength, m)
    else
      match decodeAttributes (length buf) (drop messageHeaderSize buf) with
      | inl e => (Some e, m)
      | inr attrs =>
          (None, {| MType := t; Length := size; TransactionID := id;
                    Attributes := attrs; Raw := buf |})
      end.

(** ** Test doubles of client_test.go *)

(** [errorAgent]: every method returns the configured error. *)
Record errorAgent : Type := mkErrorAgent {
  startErr : option error;
  stopErr : option error;
  closeErr : option error
}.

#[global] Instance errorAgent_methods : ClientAgent.Methods errorAgent := {|
  ClientAgent.Process := λ _ ag, (None, ag);
  ClientAgent.Close := λ ag, (closeErr ag, ag);
  ClientAgent.Start := λ _ _ _ ag, (startErr ag, ag);
  ClientAgent.Stop := λ _ ag, (stopErr ag, ag);
  ClientAgent.Collect := λ _ ag, (None, ag)
|}.

(** [testConnection] *)
Record testConnection : Type := mkTestConnection {
  writeTo : list byte → option Addr → Z * option error;
  tc_b : list byte;
  stopped : bool
}.

(** [copy(dst, src)]: the new contents of [dst] and the count copied. *)
Definition copy (dst src : list byte) : list byte * Z :=
  let n := Nat.min (length dst) (length src) in
  (take n src ++ drop n dst, Z.of_nat n).

#[global] Instance testConnection_methods : PacketConn.Methods testConnection := {|
  PacketConn.WriteTo := λ b addr t, (writeTo t b addr, t);
  PacketConn.Close := λ t,
    if stopped t then (Some (errors_New "already stopped"), t)
    else (None, {| writeTo := writeTo t; tc_b := tc_b t; stopped := true |});
  PacketConn.ReadFrom := λ b t,
    if stopped t then ((b, 0, None, Some io_EOF), t)
    else let '(b', n) := copy b (tc_b t) in ((b', n, None, None), t);
  PacketConn.LocalAddr := λ _, None
|}.

(** [noopConnection] *)
#[global] Instance noopConnection_methods : PacketConn.Methods unit := {|
  PacketConn.WriteTo := λ b _ t, ((Z.of_nat (length b), None), t);
  PacketConn.ReadFrom := λ b t, ((b, 0, None, Some io_EOF), t);
  PacketConn.Close := λ t, (None, t);
  PacketConn.LocalAddr := λ _, None
|}.

(** ** client.go *)

(** [defaultTimeoutRate = time.Millisecond * 100], in nanoseconds. *)
Definition defaultTimeoutRate : Z := 100 * 1000000.

(** A configuration option: a function from [*Client] to [error]. *)
Abbreviation ClientOption := (Client → option error * Client) (only parsing).

Definition WithTimeoutRate (d : Z) : ClientOption :=
  λ cl, (None, set_gcRate d cl).

Definition WithAgent (ag : option ClientAgent.t) : ClientOption :=
  λ cl, (None, set_a ag cl).

Definition WithPacketConn (pc : option PacketConn.t) : ClientOption :=
  λ cl,
    match c cl with
    | Some _ => (Some ErrConnection, cl)
    | None => (None, set_c pc cl)
    end.

Definition WithSTUNServer (addr : option Addr) : ClientOption :=
  λ cl, (None, set_serveraddr addr cl).

(** [&Client{close: make(chan struct{}), gcRate: defaultTimeoutRate}] *)
Definition emptyClient : Client :=
  {| a := None; c := None; serveraddr := None; close := Some false;
     gcRate := defaultTimeoutRate; closed := false; wg := 0 |}.

(** [for _, option := range options { option(c) }]: the error an option
    returns is dropped. *)
Definition applyOptions (options : list ClientOption) (cl : Client) : Client :=
  fold_left (λ cl option, (option cl).2) options cl.

(** [NewAgent(AgentOptions{})], as an interface value. *)
Definition defaultAgent : ClientAgent.t :=
  ClientAgent.pack Agent.t Agent.methods (Agent.NewAgent None).

(** [NewClient]; [runtime.SetFinalizer] has no effect on what is returned. *)
Definition NewClient (options : list ClientOption)
    : option Client * option error :=
  let cl := applyOptions options emptyClient in
  match c cl with
  | None => (None, Some ErrNoConnection)
  | Some _ =>
      match a cl with
      | None => (Some (set_a (Some defaultAgent) cl), None)
      | Some _ => (Some cl, None)
      end
  end.

(** [closedOrPanic] *)
Definition closedOrPanic (err : option error) : M unit :=
  match err with
  | None => mret tt
  | Some e => if is_ErrAgentClosed err then mret tt else panic (PanicErr e)
  end.

(** [b[:n]], which panics when [n] is out of range. *)
Definition sliceTo (b : list byte) (n : Z) : M (list byte) :=
  if (0 <=? n) && (n <=? Z.of_nat (length b))
  then mret (take (Z.to_nat n) b)
  else panic SliceBounds.

(** The [select] of the collector loop receives from one of two channels.
    Which one is the scheduler's choice when both are ready, so the choice is
    an input of the model. *)
Inductive selectCase : Type :=
| caseClose
| caseTick (gcTime : time).

Module Client.

(** [checkInit]; the receiver may be a nil pointer. *)
Definition checkInit (cl : option Client) : option error :=
  match cl with
  | None => Some ErrClientNotInitialized
  | Some cl =>
      match c cl, a cl, close cl with
      | Some _, Some _, Some _ => None
      | _, _, _ => Some ErrClientNotInitialized
      end
  end.

(** The calls [c.a.Start(...)], [c.c.WriteTo(...)] and so on. *)
Definition a_Process (m : Message) : M (option error) :=
  agent (AgentProcess m) (ClientAgent.process m).
Definition a_Close : M (option error) :=
  agent AgentClose ClientAgent.close.
Definition a_Start (id : transactionID) (d : time) (h : Handler)
    : M (option error) :=
  agent (AgentStart id d h) (ClientAgent.start id d h).
Definition a_Stop (id : transactionID) : M (option error) :=
  agent (AgentStop id) (ClientAgent.stop id).
Definition a_Collect (gcTime : time) : M (option error) :=
  agent (AgentCollect gcTime) (ClientAgent.collect gcTime).
Definition c_ReadFrom (b : list byte)
    : M (list byte * Z * option Addr * option error) :=
  conn ConnReadFrom (PacketConn.readFrom b).
Definition c_WriteTo (b : list byte) (addr : option Addr)
    : M (Z * option error) :=
  conn (ConnWriteTo b addr) (PacketConn.writeTo b addr).
Definition c_Close : M (option error) :=
  conn ConnClose PacketConn.close.

(** [close(c.close)] *)
Definition closeChan : M unit :=
  cl ← getClient;
  match close cl with
  | None => panic CloseOfNilChannel
  | Some true => panic CloseOfClosedChannel
  | Some false => modifyClient (set_close (Some true));; record ChanClose
  end.

(** [c.wg.Add(delta)]; [c.wg.Done()] is [c.wg.Add(-1)]. *)
Definition wg_Add (delta : Z) : M unit :=
  cl ← getClient;
  if wg cl + delta <? 0 then panic NegativeWaitGroup
  else modifyClient (set_wg (wg cl + delta)).
Definition wg_Done : M unit := wg_Add (-1).

(** [c.wg.Wait()].  That the caller is held until the counter is zero is a
    matter of scheduling between goroutines; the call is recorded. *)
Definition wg_Wait : M unit := record WgWait.

(** [Collect] *)
Definition Collect (gcTime : time) : M (option error) := a_Collect gcTime.

(** [Close] *)
Definition Close : M (option error) :=
  cl ← getClient;
  match checkInit (Some cl) with
  | Some err => mret (Some err)
  | None =>
      if closed cl then mret (Some ErrClientClosed)
      else
        modifyClient (set_closed true);;
        agentErr ← a_Close;
        connErr ← c_Close;
        closeChan;;
        wg_Wait;;
        match agentErr, connErr with
        | None, None => mret None
        | _, _ => mret (Some (CloseErr agentErr connErr))
        end
  end.

(** [StartTo]; a nil handler is [None]. *)
Definition StartTo (m : Message) (raddr : option Addr) (d : time)
    (h : option Handler) : M (option error) :=
  cl ← getClient;
  match checkInit (Some cl) with
  | Some err => mret (Some err)
  | None =>
      if closed cl then mret (Some ErrClientClosed)
      else
        startErr ← match h with
                   | Some f => a_Start (TransactionID m) d f
                   | None => mret None
                   end;
        match startErr with
        | Some err => mret (Some err)
        | None =>
            '(_, err) ← c_WriteTo (Raw m) raddr;
            match err, h with
            | Some _, Some _ =>
                stopErr ← a_Stop (TransactionID m);
                match stopErr with
                | Some _ => mret (Some (StopErr stopErr err))
                | None => mret err
                end
            | _, _ => mret err
            end
        end
  end.

(** [Start] *)
Definition Start (m : Message) (d : time) (h : option Handler)
    : M (option error) :=
  cl ← getClient;
  StartTo m (serveraddr cl) d h.

(** [Indicate] *)
Definition Indicate (m : Message) : M (option error) :=
  Start m zero_time None.

(** [DoTo].  The handler is the pooled [callbackWaitHandler]; taking it
    from the pool and putting it back leave the client untouched.  After a
    successful [StartTo] the caller is parked in [h.wait()] until another
    goroutine fires the handler. *)
Definition DoTo (m : Message) (raddr : option Addr) (d : time)
    : M (option Message * option error) :=
  cl ← getClient;
  match checkInit (Some cl) with
  | Some err => mret (None, Some err)
  | None =>
      err ← StartTo m raddr d (Some callbackWaitHandler);
      match err with
      | Some _ => mret (None, err)
      | None => blocked
      end
  end.

(** [Do] *)
Definition Do (m : Message) (d : time) : M (option Message * option error) :=
  cl ← getClient;
  DoTo m (serveraddr cl) d.

(** [WriteTo] *)
Definition WriteTo (b : list byte) (addr : option Addr)
    : M (Z * option error) :=
  c_WriteTo b addr.

(** [LocalAddr] *)
Definition LocalAddr : M (option Addr) :=
  conn' ← conn ConnLocalAddr (λ v, (PacketConn.localAddr v, v));
  mret conn'.

(** [ReadUntilClosed] and [CollectUntilClosed]: the [go] statement is
    recorded, the goroutine's body is given further down. *)
Definition ReadUntilClosed : M unit :=
  wg_Add 1;; record GoReadUntilClosed.
Definition CollectUntilClosed : M unit :=
  wg_Add 1;; record GoCollectUntilClosed.

(** [HandleTransactions] *)
Definition HandleTransactions : M unit :=
  ReadUntilClosed;; CollectUntilClosed.

(** One pass of the [for] loop of [collectUntilClosed], for the case [sel]
    that the [select] takes.  The close case can only be taken when the
    channel is closed; a receive from an open or nil channel is not ready. *)
Definition collectUntilClosed_body (sel : selectCase) : M bool :=
  match sel with
  | caseClose =>
      cl ← getClient;
      match close cl with
      | Some true => record TickerStop;; mret true
      | _ => blocked
      end
  | caseTick gcTime =>
      err ← Collect gcTime;
      closedOrPanic err;;
      mret false
  end.

(** The [for] loop of [collectUntilClosed] along a schedule of cases taken;
    when the schedule is used up the goroutine waits in the [select]. *)
Fixpoint collectUntilClosed_loop (sched : list selectCase) : M unit :=
  match sched with
  | [] => blocked
  | sel :: rest =>
      stop ← collectUntilClosed_body sel;
      if stop : bool then mret tt else collectUntilClosed_loop rest
  end.

(** [collectUntilClosed]; [time.NewTicker] panics on a non-positive
    interval. *)
Definition collectUntilClosed (sched : list selectCase) : M unit :=
  defer wg_Done
    (cl ← getClient;
     if gcRate cl <=? 0 then panic NonPositiveTickerInterval
     else collectUntilClosed_loop sched).

Section WithDecoder.

(** The method [Decode] of [*Message], which is not among the sources. *)
Variable Decode : Message → option error * Message.

(** One pass of the [for] loop of [ReadFrom]: [inl] is a [return] with
    the buffer and the named results [(n, addr, err)], [inr] goes round
    again with the buffer. *)
Definition ReadFrom_body (b : list byte)
    : M (list byte * Z * option Addr * option error + list byte) :=
  '(b', n, addr, err) ← c_ReadFrom b;
  match err with
  | Some _ => mret (inl (b', n, addr, err))
  | None =>
      raw ← sliceTo b' n;
      if negb (IsMessage raw) then mret (inl (b', n, addr, None))
      else
        let m := set_Raw raw new_Message in
        match Decode m with
        | (Some _, _) => mret (inl (b', n, addr, None))
        | (None, m') =>
            err ← a_Process m';
            match err with
            | Some _ => mret (inl (b', n, addr, err))
            | None => mret (inr b')
            end
        end
  end.

(** [ReadFrom], bounded to [fuel] datagrams. *)
Fixpoint ReadFrom (fuel : nat) (b : list byte)
    : M (list byte * Z * option Addr * option error) :=
  match fuel with
  | O => out_of_fuel
  | S fuel' =>
      r ← ReadFrom_body b;
      match r with
      | inl res => mret res
      | inr b' => ReadFrom fuel' b'
      end
  end.

(** One pass of the [for] loop of [readUntilClosed]: [None] is a
    [return], [Some buf] goes round again.  A receive from a closed
    channel is ready, from an open or a nil channel it is not, and then
    the [default] case is taken. *)
Definition readUntilClosed_body (fuel : nat) (buf : list byte)
    : M (option (list byte)) :=
  cl ← getClient;
  match close cl with
  | Some true => mret None
  | _ =>
      '(buf', _, _, err) ← ReadFrom fuel buf;
      if is_ErrAgentClosed err then mret None else mret (Some buf')
  end.

(** The [for] loop of [readUntilClosed], bounded to [rounds] passes, each
    [ReadFrom] bounded to [fuel] datagrams. *)
Fixpoint readUntilClosed_loop (fuel rounds : nat) (buf : list byte)
    : M unit :=
  match rounds with
  | O => out_of_fuel
  | S rounds' =>
      r ← readUntilClosed_body fuel buf;
      match r with
      | None => mret tt
      | Some buf' => readUntilClosed_loop fuel rounds' buf'
      end
  end.

(** [readUntilClosed]; [buf := make([]byte, 1024)]. *)
Definition readUntilClosed (fuel rounds : nat) : M unit :=
  defer wg_Done
    (readUntilClosed_loop fuel rounds (replicate 1024 Byte.x00)).

End WithDecoder.

End Client.

(** ** Vocabulary of the statements *)

(** The world after a call through [c.a] that left the agent as [ag], and
    after a call through [c.c] that left the connection as [pc]. *)
Definition afterAgent (ag : ClientAgent.t) (e : Call) (w : World) : World :=
  {| client := set_a (Some ag) (client w); trace := trace w ++ [e] |}.

Definition afterConn (pc : PacketConn.t) (e : Call) (w : World) : World :=
  {| client := set_c (Some pc) (client w); trace := trace w ++ [e] |}.

(** An initialised client ([checkInit] passes) whose agent is [ag] and whose
    connection is [pc]. *)
Definition usable (w : World) (ag : ClientAgent.t) (pc : PacketConn.t) : Prop :=
  a (client w) = Some ag ∧ c (client w) = Some pc
  ∧ is_Some (close (client w)).

(** An initialised client on which [Close] has gone through. *)
Definition closedClient (w : World) : Prop :=
  Client.checkInit (Some (client w)) = None ∧ closed (client w) = true.

(** [k] calls of [Close] in a row: the outcomes, and the world at the end. *)
Fixpoint closeTimes (k : nat) (w : World)
    : list (Outcome (option error)) * World :=
  match k with
  | O => ([], w)
  | S k' =>
      let '(r, w') := Client.Close w in
      let '(rs, w'') := closeTimes k' w' in
      (r :: rs, w'')
  end.

(** What [Close] returns for the two sub-errors. *)
Definition closeResult (agentErr connErr : option error) : option error :=
  match agentErr, connErr with
  | None, None => None
  | _, _ => Some (CloseErr agentErr connErr)
  end.

(** Calls that reach the agent. *)
Definition isAgentCall (e : Call) : bool :=
  match e with
  | AgentProcess _ | AgentClose | AgentStart _ _ _ | AgentStop _
  | AgentCollect _ => true
  | _ => false
  end.

(** ** Concrete clients, after client_test.go *)

Definition bytesOf (l : list N) : list byte :=
  map (λ n, default Byte.x00 (Byte.of_N n)) l.

(** A binding success response with transaction id 01 02 ... 0c and no
    attribute. *)
Definition responseRaw : list byte :=
  bytesOf [0x01; 0x01; 0x00; 0x00; 0x21; 0x12; 0xA4; 0x42;
           1; 2; 3; 4; 5; 6; 7; 8; 9; 10; 11; 12]%N.

(** A binding request with the same transaction id. *)
Definition request : Message :=
  {| MType := 0x0001; Length := 0;
     TransactionID := bigEndian (bytesOf [1; 2; 3; 4; 5; 6; 7; 8; 9; 10; 11; 12]%N);
     Attributes := [];
     Raw := bytesOf [0x00; 0x01; 0x00; 0x00; 0x21; 0x12; 0xA4; 0x42;
                     1; 2; 3; 4; 5; 6; 7; 8; 9; 10; 11; 12]%N |}.

(** The connection of [TestClient_Do]: writes succeed, reads deliver the
    response. *)
Definition okConn : PacketConn.t :=
  PacketConn.pack testConnection testConnection_methods
    {| writeTo := λ b _, (Z.of_nat (length b), None);
       tc_b := responseRaw; stopped := false |}.

(** The connection of [TestClientConnErr]: every write fails with
    [io.ErrClosedPipe]. *)
Definition pipeClosedConn : PacketConn.t :=
  PacketConn.pack testConnection testConnection_methods
    {| writeTo := λ _ _, (0, Some io_ErrClosedPipe);
       tc_b := []; stopped := false |}.

(** [okConn] after its [Close]: reads fail with [io.EOF]. *)
Definition stoppedConn : PacketConn.t :=
  PacketConn.pack testConnection testConnection_methods
    {| writeTo := λ b _, (Z.of_nat (length b), None);
       tc_b := responseRaw; stopped := true |}.

(** A connection that delivers four bytes that are no STUN message. *)
Definition pingConn : PacketConn.t :=
  PacketConn.pack testConnection testConnection_methods
    {| writeTo := λ b _, (Z.of_nat (length b), None);
       tc_b := bytesOf [112; 105; 110; 103]%N; stopped := false |}.

Definition agentOf (ag : errorAgent) : ClientAgent.t :=
  ClientAgent.pack errorAgent errorAgent_methods ag.

Definition noErrors : errorAgent :=
  {| startErr := None; stopErr := None; closeErr := None |}.

(** The client [NewClient(options...)] returns, in a world with an empty
    trace; the zero client when [NewClient] fails. *)
Definition worldOf (options : list ClientOption) : World :=
  {| client := match NewClient options with
               | (Some cl, _) => cl
               | (None, _) => emptyClient
               end;
     trace := [] |}.

Definition stunServer : option Addr := Some "gortc.io:3478"%string.

(** The scenario of [TestAgent_GC]: five transactions with deadline [T],
    five with a deadline a second and a day later, and a collection one
    second after [T]. *)
Definition startAll (ids : list N) (deadline : time) (h : Handler)
    (ag : Agent.t) : Agent.t :=
  fold_left (λ ag id, (Agent.Start id deadline h ag).2) ids ag.

Definition gcT : time := 1826925214000120021.
Definition gcDeadline : time := gcT + 1000000000.
Definition deadlineNotGC : time := gcDeadline + 86400 * 1000000000.
Definition shouldTimeOut : Handler := HandlerFunc 1.
Definition shouldNotTimeOut : Handler := HandlerFunc 2.

Definition gcAgent : Agent.t :=
  startAll [6; 7; 8; 9; 10]%N deadlineNotGC shouldNotTimeOut
    (startAll [1; 2; 3; 4; 5]%N gcT shouldTimeOut
       (Agent.NewAgent (Some (HandlerFunc 0)))).

(** The four options the package provides, as data, and the closure each
    one stands for. *)
Inductive StandardOption : Type :=
| OptTimeoutRate (d : Z)
| OptAgent (ag : option ClientAgent.t)
| OptPacketConn (pc : option PacketConn.t)
| OptSTUNServer (addr : option Addr).

Definition toOption (o : StandardOption) : ClientOption :=
  match o with
  | OptTimeoutRate d => WithTimeoutRate d
  | OptAgent ag => WithAgent ag
  | OptPacketConn pc => WithPacketConn pc
  | OptSTUNServer addr => WithSTUNServer addr
  end.

(** The first non-nil connection among the options. *)
Fixpoint firstConn (os : list StandardOption) : option PacketConn.t :=
  match os with
  | [] => None
  | OptPacketConn (Some pc) :: _ => Some pc
  | _ :: rest => firstConn rest
  end.

(** A 32-byte read buffer, and the default agent after its [Close]. *)
Definition buf32 : list byte := replicate 32 Byte.x00.

Definition closedAgent : ClientAgent.t :=
  ClientAgent.pack Agent.t Agent.methods (Agent.Close (Agent.NewAgent None)).2.

(** The results of [Collect] at the successive tick times [ts], and the
    agent at the end. *)
Fixpoint collectRun (ts : list time) (ag : ClientAgent.t)
    : list (option error) * ClientAgent.t :=
  match ts with
  | [] => ([], ag)
  | t :: ts' =>
      let '(err, ag') := ClientAgent.collect t ag in
      let '(errs, ag'') := collectRun ts' ag' in
      (err :: errs, ag'')
  end.

(** The results [closedOrPanic] lets pass: nil and [ErrAgentClosed]. *)
Definition passes (err : option error) : Prop :=
  err = None ∨ err = Some ErrAgentClosed.

(** A client whose background loops run: [HandleTransactions] was called on
    the client of [TestClientGC], with the agent of [TestClientAgentError]. *)
Definition runningWorld : World :=
  (Client.HandleTransactions
     (worldOf [WithAgent (Some (agentOf noErrors));
               WithPacketConn (Some okConn);
               WithTimeoutRate 1000000])).2.

(** The same after the channel is closed, as [Close] does. *)
Definition signalledWorld : World :=
  {| client := set_close (Some true) (client runningWorld);
     trace := trace runningWorld |}.

(** The agent of [TestClientCloseErr]: its [Close] fails. *)
Definition closeErrAgent : ClientAgent.t :=
  agentOf {| startErr := None; stopErr := None;
             closeErr := Some io_ErrUnexpectedEOF |}.

(** The connection of [BenchmarkClient_Do]: every read fails with [io.EOF]. *)
Definition noopConn : PacketConn.t :=
  PacketConn.pack unit noopConnection_methods tt.

(** The agent of [TestClientConnErrStopErr]: its [Stop] fails. *)
Definition stopErrAgent : ClientAgent.t :=
  agentOf {| startErr := None; stopErr := Some io_ErrUnexpectedEOF;
             closeErr := None |}.

(** ** The rest of client.go *)

Definition netUDP : string := "udp".
Definition netUDP4 : string := "udp4".
Definition netUDP6 : string := "udp6".
Definition DefaultNet : string := "udp".
Definition DefaultSTUNServer : string := "gortc.io:3478".

(** [err.Error()].  The texts of the errors that client.go declares are
    those of the source, and [io.ErrUnexpectedEOF] reads as the tests of
    client_test.go expect; [foreign] gives the text of every other error
    (those of agent.go, [io.EOF], [io.ErrClosedPipe]).  [sprintErr] is the
    inner [match]. *)
Fixpoint Error (foreign : error → string) (e : error) : string :=
  let sprintErr (err : option error) : string :=
    match err with
    | None => "<nil>"%string
    | Some e' => Error foreign e'
    end in
  match e with
  | ErrNoConnection => "no connection provided"%string
  | ErrConnection => "connection already provided"%string
  | ErrNet => "network type not supported"%string
  | ErrClientClosed => "client is closed"%string
  | ErrClientNotInitialized => "client not initialized"%string
  | io_ErrUnexpectedEOF => "unexpected EOF"%string
  | StopErr err cause =>
      ("error while stopping due to " ++ sprintErr cause ++ ": "
         ++ sprintErr err)%string
  | CloseErr agentErr connErr =>
      ("failed to close: " ++ sprintErr connErr ++ " (connection), "
         ++ sprintErr agentErr ++ " (agent)")%string
  | errors_New text => text
  | _ => foreign e
  end.

(** [sprintErr] *)
Definition sprintErr (foreign : error → string) (err : option error) : string :=
  match err with
  | None => "<nil>"%string
  | Some e => Error foreign e
  end.

(** [fmt.Errorf(prefix + "%v", err)] *)
Definition fmt_Errorf (foreign : error → string) (prefix : string) (e : error)
    : error :=
  errors_New (prefix ++ Error foreign e)%string.

(** [network] is one of the three [case] labels of [ResolveAddr] and
    [listen]. *)
Definition isUDP (network : string) : bool :=
  (network =? netUDP)%string || (network =? netUDP4)%string
  || (network =? netUDP6)%string.

Section Net.

(** [net.ResolveUDPAddr] and [net.ListenUDP], which are the operating
    system's. *)
Variable ResolveUDPAddr : string → string → option Addr * option error.
Variable ListenUDP : string → option Addr → option PacketConn.t * option error.
Variable foreign : error → string.

(** [ResolveAddr] *)
Definition ResolveAddr (network address : string) : option Addr * option error :=
  let network := if (network =? "")%string then DefaultNet else network in
  if isUDP network then ResolveUDPAddr network address
  else (None, Some ErrNet).

(** [listen] *)
Definition listen (network : string) (laddr : option Addr)
    : option PacketConn.t * option error :=
  if isUDP network then ListenUDP network laddr
  else (None, Some ErrNet).

(** [Dial] *)
Definition Dial (network localaddress stunserveraddress : string)
    (options : list ClientOption) : option Client * option error :=
  let stunserveraddress :=
    if (stunserveraddress =? "")%string then DefaultSTUNServer
    else stunserveraddress in
  let '(laddr, err) :=
    if negb (localaddress =? "")%string then ResolveAddr network localaddress
    else (None, None) in
  match err with
  | Some e => (None, Some (fmt_Errorf foreign "localaddr: " e))
  | None =>
      let '(raddr, err) := ResolveAddr network stunserveraddress in
      match err with
      | Some e => (None, Some (fmt_Errorf foreign "stunserveraddress: " e))
      | None =>
          let '(conn, err) := listen network laddr in
          match err with
          | Some e => (None, Some (fmt_Errorf foreign "listen: " e))
          | None =>
              NewClient (options ++ [WithPacketConn conn; WithSTUNServer raddr])
          end
      end
  end.

(** [clientFinalizer]; [isNil] says that the pointer is nil.  The result is
    the lines it logs ([log.Println] puts a space between its operands). *)
Definition clientFinalizer (isNil : bool) : M (list string) :=
  if isNil then mret []
  else
    err ← Client.Close;
    match err with
    | Some ErrClientClosed => mret []
    | None => mret ["client: called finalizer on non-closed client"%string]
    | Some e =>
        mret [("client: called finalizer on non-closed client: "
                 ++ Error foreign e)%string]
    end.

End Net.

(** [callbackWaitHandler], the handler [DoTo] waits on.  [L] is the type of
    the variables that the callback, a closure, assigns to.  The condition
    variable has no content in a sequential model: [wait] finds [processed]
    set or is parked. *)
Module CallbackWaitHandler.

Record t (L : Type) : Type := mk {
  callback : option (Event → L → L);
  processed : bool
}.
Arguments mk {L} callback processed.
Arguments callback {L} _.
Arguments processed {L} _.

(** What the pool's [New] makes. *)
Definition New {L : Type} : t L := {| callback := None; processed := false |}.

(** [HandleEvent] *)
Definition HandleEvent {L : Type} (e : Event) (s : t L) (locals : L)
    : Outcome (t L * L) :=
  match callback s with
  | None => Panic (PanicText "s.callback is nil")
  | Some f => Ret ({| callback := callback s; processed := true |}, f e locals)
  end.

(** [wait] *)
Definition wait {L : Type} (s : t L) : Outcome unit :=
  if processed s then Ret tt else Blocked.

(** [setCallback]; a nil [f] is [None]. *)
Definition setCallback {L : Type} (f : option (Event → L → L)) (s : t L)
    : Outcome (t L) :=
  match f with
  | None => Panic (PanicText "f is nil")
  | Some _ => Ret {| callback := f; processed := processed s |}
  end.

(** [reset] *)
Definition reset {L : Type} (s : t L) : t L :=
  {| callback := None; processed := false |}.

End CallbackWaitHandler.

(** The callback of [DoTo]: it assigns the event's error and message to the
    two variables [eventErr] and [message]. *)
Definition doCallback (event : Event) (_ : option error * option Message)
    : option error * option Message :=
  (EvError event, EvMessage event).

(** [DoTo] with its handler written out.  [h] is the handler that
    [callbackWaitHandlerPool.Get()] returns and the second component of the
    result is the handler that the deferred function puts back.  [fired] is
    the event with which another goroutine calls [h.HandleEvent] once
    [StartTo] has returned; with [None] there is no such call. *)
Definition DoTo_fired (m : Message) (raddr : option Addr) (d : time)
    (fired : option Event)
    (h : CallbackWaitHandler.t (option error * option Message))
    : M ((option Message * option error)
         * CallbackWaitHandler.t (option error * option Message)) :=
  cl ← getClient;
  match Client.checkInit (Some cl) with
  | Some err => mret ((None, Some err), h)
  | None =>
      match CallbackWaitHandler.setCallback (Some doCallback) h with
      | Ret h1 =>
          err ← Client.StartTo m raddr d (Some callbackWaitHandler);
          match err with
          | Some _ => mret ((None, err), CallbackWaitHandler.reset h1)
          | None =>
              match
                match fired with
                | None => Ret (h1, (None, None))
                | Some event =>
                    CallbackWaitHandler.HandleEvent event h1 (None, None)
                end
              with
              | Ret (h2, (eventErr, message)) =>
                  match CallbackWaitHandler.wait h2 with
                  | Ret _ =>
                      mret ((message, eventErr), CallbackWaitHandler.reset h2)
                  | Panic p => panic p
                  | Blocked => blocked
                  | OutOfFuel => out_of_fuel
                  end
              | Panic p => panic p
              | Blocked => blocked
              | OutOfFuel => out_of_fuel
              end
          end
      | Panic p => panic p
      | Blocked => blocked
      | OutOfFuel => out_of_fuel
      end
  end.

(** ** Vocabulary of the further statements *)

(** The zero client, [&Client{}]. *)
Definition zeroClient : Client :=
  {| a := None; c := None; serveraddr := None; close := None;
     gcRate := 0; closed := false; wg := 0 |}.

(** The last timeout rate, server address and agent among the options. *)
Fixpoint lastRate (os : list StandardOption) : option Z :=
  match os with
  | [] => None
  | o :: rest =>
      match lastRate rest, o with
      | Some d, _ => Some d
      | None, OptTimeoutRate d => Some d
      | None, _ => None
      end
  end.

Fixpoint lastServer (os : list StandardOption) : option (option Addr) :=
  match os with
  | [] => None
  | o :: rest =>
      match lastServer rest, o with
      | Some addr, _ => Some addr
      | None, OptSTUNServer addr => Some addr
      | None, _ => None
      end
  end.

Fixpoint lastAgent (os : list StandardOption) : option (option ClientAgent.t) :=
  match os with
  | [] => None
  | o :: rest =>
      match lastAgent rest, o with
      | Some ag, _ => Some ag
      | None, OptAgent ag => Some ag
      | None, _ => None
      end
  end.

(** [w'] comes after [w]: what is closed stays closed, what is set stays
    set, the timeout rate and the server address are the same, and the trace
    has only grown. *)
Definition comesAfter (w w' : World) : Prop :=
  (closed (client w) = true → closed (client w') = true)
  ∧ (close (client w) = Some true → close (client w') = Some true)
  ∧ (is_Some (close (client w)) → is_Some (close (client w')))
  ∧ (is_Some (a (client w)) → is_Some (a (client w')))
  ∧ (is_Some (c (client w)) → is_Some (c (client w')))
  ∧ gcRate (client w') = gcRate (client w)
  ∧ serveraddr (client w') = serveraddr (client w)
  ∧ ∃ calls, trace w' = trace w ++ calls.

(** [w'] has the wait group's counter of [w]. *)
Definition sameCounter (w w' : World) : Prop :=
  wg (client w') = wg (client w).

(** A relation between the world before and the world after that holds
    across the steps the methods are made of, those on the wait group
    apart. *)
Record invariant (R : World → World → Prop) : Prop := {
  inv_refl : ∀ w, R w w;
  inv_trans : ∀ w1 w2 w3, R w1 w2 → R w2 w3 → R w1 w3;
  inv_record : ∀ w e, R w {| client := client w; trace := trace w ++ [e] |};
  inv_agent : ∀ w v e, R w (afterAgent v e w);
  inv_conn : ∀ w v e, R w (afterConn v e w);
  inv_closed : ∀ w,
    R w {| client := set_closed true (client w); trace := trace w |};
  inv_close : ∀ w,
    R w {| client := set_close (Some true) (client w); trace := trace w |}
}.

(** A computation all of whose runs, however they end, relate the world
    they started in to the one they end in. *)
Definition respects (R : World → World → Prop) {X : Type} (m : M X) : Prop :=
  ∀ w : World, R w (m w).2.

Definition movesOn {X : Type} (m : M X) : Prop := respects comesAfter m.

(** How the counter of the wait group stands when a goroutine that started
    in [start] has got to [r]: one lower when it has ended, by a return or by
    a panic, and the same while it is still going. *)
Definition endsOneLower (start : World) (r : Outcome unit * World) : Prop :=
  match r.1 with
  | Ret _ | Panic _ => wg (client r.2) = wg (client start) - 1
  | Blocked | OutOfFuel => wg (client r.2) = wg (client start)
  end.

(** The calls a run of [k] passes of [ReadFrom]'s loop makes when every
    datagram is the message [m]. *)
Fixpoint readsAndProcesses (k : nat) (m : Message) : list Call :=
  match k with
  | O => []
  | S k' => ConnReadFrom :: AgentProcess m :: readsAndProcesses k' m
  end.

(** * Properties *)

(** ** Running the monad *)

Lemma bind_ret {X Y : Type} (m : M X) (k : X → M Y) (w w' : World) (x : X) :
  m w = (Ret x, w') → (m ≫= k) w = k x w'.
Proof. intros H. unfold mbind, M_bind. by rewrite H. Qed.

Lemma bind_panic {X Y : Type} (m : M X) (k : X → M Y) (w w' : World) p :
  m w = (Panic p, w') → (m ≫= k) w = (Panic p, w').
Proof. intros H. unfold mbind, M_bind. by rewrite H. Qed.

Lemma getClient_run (w : World) : getClient w = (Ret (client w), w).
Proof. reflexivity. Qed.

Lemma agent_run {X : Type} (e : Call) (f : ClientAgent.t → X * ClientAgent.t)
    (w : World) (ag ag' : ClientAgent.t) (x : X) :
  a (client w) = Some ag → f ag = (x, ag') →
  agent e f w = (Ret x, afterAgent ag' e w).
Proof. intros Ha Hf. unfold agent. by rewrite Ha, Hf. Qed.

Lemma conn_run {X : Type} (e : Call) (f : PacketConn.t → X * PacketConn.t)
    (w : World) (pc pc' : PacketConn.t) (x : X) :
  c (client w) = Some pc → f pc = (x, pc') →
  conn e f w = (Ret x, afterConn pc' e w).
Proof. intros Hc Hf. unfold conn. by rewrite Hc, Hf. Qed.

Lemma usable_checkInit (w : World) ag pc :
  usable w ag pc → Client.checkInit (Some (client w)) = None.
Proof.
  intros (Ha & Hc & [ch Hch]). unfold Client.checkInit.
  by rewrite Ha, Hc, Hch.
Qed.

Lemma checkInit_usable (w : World) :
  Client.checkInit (Some (client w)) = None → ∃ ag pc, usable w ag pc.
Proof.
  unfold Client.checkInit, usable.
  destruct (c (client w)) as [pc|], (a (client w)) as [ag|],
    (close (client w)) as [ch|]; try discriminate.
  intros _. exists ag, pc. eauto.
Qed.

Lemma modifyClient_run (f : Client → Client) (w : World) :
  modifyClient f w = (Ret tt, {| client := f (client w); trace := trace w |}).
Proof. reflexivity. Qed.

Lemma record_run (e : Call) (w : World) :
  record e w = (Ret tt, {| client := client w; trace := trace w ++ [e] |}).
Proof. reflexivity. Qed.

Lemma mret_run {X : Type} (x : X) (w : World) : (mret x : M X) w = (Ret x, w).
Proof. reflexivity. Qed.

(** Takes the next step of a monadic computation, given a tactic that proves
    the equation for its first action. *)
Ltac mstep tac :=
  erewrite bind_ret; [| tac ];
  cbv beta;
  cbn [client trace afterAgent afterConn a c close closed wg gcRate serveraddr
       set_a set_c set_close set_closed set_wg].

(** ** StartTo, Start, Indicate, DoTo, Do on a closed client *)

Lemma StartTo_closed (w : World) m raddr d h :
  closedClient w →
  Client.StartTo m raddr d h w = (Ret (Some ErrClientClosed), w).
Proof.
  intros [Hi Hc]. unfold Client.StartTo.
  rewrite (bind_ret _ _ _ _ _ (getClient_run w)). by rewrite Hi, Hc.
Qed.

Lemma Close_closed (w : World) :
  closedClient w → Client.Close w = (Ret (Some ErrClientClosed), w).
Proof.
  intros [Hi Hc]. unfold Client.Close.
  rewrite (bind_ret _ _ _ _ _ (getClient_run w)). by rewrite Hi, Hc.
Qed.

(** ** Close *)

(** The world after a first [Close]. *)
Lemma closeChan_open (w : World) :
  close (client w) = Some false →
  Client.closeChan w =
    (Ret tt, {| client := set_close (Some true) (client w);
                trace := trace w ++ [ChanClose] |}).
Proof.
  intros H. unfold Client.closeChan.
  rewrite (bind_ret _ _ _ _ _ (getClient_run w)), H.
  mstep ltac:(apply modifyClient_run). reflexivity.
Qed.

Lemma closeChan_closed (w : World) :
  close (client w) = Some true →
  Client.closeChan w = (Panic CloseOfClosedChannel, w).
Proof.
  intros H. unfold Client.closeChan.
  by rewrite (bind_ret _ _ _ _ _ (getClient_run w)), H.
Qed.

Lemma Close_open (w : World) ag pc agentErr ag' connErr pc' :
  usable w ag pc → close (client w) = Some false →
  closed (client w) = false →
  ClientAgent.close ag = (agentErr, ag') →
  PacketConn.close pc = (connErr, pc') →
  Client.Close w =
    (Ret (closeResult agentErr connErr),
     {| client := set_close (Some true)
                    (set_c (Some pc')
                       (set_a (Some ag') (set_closed true (client w))));
        trace := trace w ++ [AgentClose; ConnClose; ChanClose; WgWait] |}).
Proof.
  intros Hu Hch Hcl Hag Hpc. pose proof (usable_checkInit _ _ _ Hu) as Hi.
  destruct Hu as (Ha & Hc & _). unfold Client.Close.
  rewrite (bind_ret _ _ _ _ _ (getClient_run w)), Hi, Hcl.
  mstep ltac:(apply modifyClient_run).
  mstep ltac:(eapply agent_run; [exact Ha | exact Hag]).
  mstep ltac:(eapply conn_run; [exact Hc | exact Hpc]).
  mstep ltac:(apply closeChan_open; exact Hch).
  mstep ltac:(apply record_run).
  rewrite <- !app_assoc. cbn [app].
  unfold closeResult. by destruct agentErr, connErr.
Qed.

(** A [Close] that did not stop at [checkInit] leaves a closed client. *)
Lemma Close_establishes_closed (w w' : World) (r : option error) :
  Client.Close w = (Ret r, w') → r ≠ Some ErrClientNotInitialized →
  closedClient w'.
Proof.
  destruct (Client.checkInit (Some (client w))) as [e|] eqn:Hi.
  - unfold Client.Close. rewrite (bind_ret _ _ _ _ _ (getClient_run w)), Hi.
    unfold Client.checkInit in Hi.
    destruct (c (client w)), (a (client w)), (close (client w));
      inversion Hi; subst; intros [= <- <-]; congruence.
  - destruct (checkInit_usable w Hi) as (ag & pc & Hu).
    destruct (closed (client w)) eqn:Hcl.
    + rewrite Close_closed by done. intros [= <- <-] _. by split.
    + destruct (ClientAgent.close ag) as [agentErr ag'] eqn:Hag.
      destruct (PacketConn.close pc) as [connErr pc'] eqn:Hpc.
      destruct Hu as (Ha & Hc & [ch Hch]). destruct ch.
      * unfold Client.Close.
        rewrite (bind_ret _ _ _ _ _ (getClient_run w)), Hi, Hcl.
        mstep ltac:(apply modifyClient_run).
        mstep ltac:(eapply agent_run; [exact Ha | exact Hag]).
        mstep ltac:(eapply conn_run; [exact Hc | exact Hpc]).
        erewrite bind_panic; [discriminate|].
        apply closeChan_closed. exact Hch.
      * erewrite Close_open; eauto; [|by repeat split; eauto].
        intros [= <- <-] _. by split.
Qed.

Lemma closeTimes_closed (k : nat) (w : World) :
  closedClient w →
  closeTimes k w = (replicate k (Ret (Some ErrClientClosed)), w).
Proof.
  intros Hw. induction k as [|k IH]; [reflexivity|].
  cbn [closeTimes replicate]. by rewrite (Close_closed _ Hw), IH.
Qed.

(** ** StartTo *)

(** C1: on an initialised, open client and with a handler, [StartTo] calls
    [Start] on the agent first and, unless that fails, [WriteTo] on the
    connection second, with the message's transaction id and raw bytes.  When
    the registration went through and the write fails, it calls [Stop] for the same id before it
    returns, and returns the write error itself; when that [Stop] fails too,
    it returns [StopErr] with the write error as [Cause] and the stop error
    as [Err]. *)
Theorem StartTo_registers_writes_and_undoes
    (w : World) ag pc (m : Message) raddr d (h : Handler)
    startErr ag1 n werr pc1 stopErr ag2 :
  usable w ag pc → closed (client w) = false →
  ClientAgent.start (TransactionID m) d h ag = (startErr, ag1) →
  PacketConn.writeTo (Raw m) raddr pc = ((n, werr), pc1) →
  ClientAgent.stop (TransactionID m) ag1 = (stopErr, ag2) →
  let w1 := afterAgent ag1 (AgentStart (TransactionID m) d h) w in
  let w2 := afterConn pc1 (ConnWriteTo (Raw m) raddr) w1 in
  let w3 := afterAgent ag2 (AgentStop (TransactionID m)) w2 in
  trace w2 = trace w ++ [AgentStart (TransactionID m) d h;
                         ConnWriteTo (Raw m) raddr]
  ∧ trace w3 = trace w ++ [AgentStart (TransactionID m) d h;
                           ConnWriteTo (Raw m) raddr;
                           AgentStop (TransactionID m)]
  ∧ (∀ e, startErr = Some e →
       Client.StartTo m raddr d (Some h) w = (Ret (Some e), w1))
  ∧ (startErr = None → werr = None →
       Client.StartTo m raddr d (Some h) w = (Ret None, w2))
  ∧ (∀ we, startErr = None → werr = Some we → stopErr = None →
       Client.StartTo m raddr d (Some h) w = (Ret (Some we), w3))
  ∧ (∀ we se, startErr = None → werr = Some we → stopErr = Some se →
       Client.StartTo m raddr d (Some h) w
         = (Ret (Some (StopErr (Some se) (Some we))), w3)).
Proof.
  intros Hu Hcl Hstart Hwrite Hstop. cbv zeta.
  pose proof (usable_checkInit _ _ _ Hu) as Hi. destruct Hu as (Ha & Hc & _).
  assert (Hrun : Client.StartTo m raddr d (Some h) w =
    match startErr, werr with
    | Some _, _ =>
        (Ret startErr, afterAgent ag1 (AgentStart (TransactionID m) d h) w)
    | None, None =>
        (Ret None,
         afterConn pc1 (ConnWriteTo (Raw m) raddr)
           (afterAgent ag1 (AgentStart (TransactionID m) d h) w))
    | None, Some _ =>
        (Ret match stopErr with
             | Some _ => Some (StopErr stopErr werr)
             | None => werr
             end,
         afterAgent ag2 (AgentStop (TransactionID m))
           (afterConn pc1 (ConnWriteTo (Raw m) raddr)
              (afterAgent ag1 (AgentStart (TransactionID m) d h) w)))
    end).
  { unfold Client.StartTo.
    rewrite (bind_ret _ _ _ _ _ (getClient_run w)), Hi, Hcl.
    mstep ltac:(eapply agent_run; [exact Ha | exact Hstart]).
    destruct startErr as [e|]; [reflexivity|].
    mstep ltac:(eapply conn_run; [exact Hc | exact Hwrite]).
    destruct werr as [we|]; [|reflexivity].
    mstep ltac:(eapply agent_run; [reflexivity | exact Hstop]).
    by destruct stopErr. }
  rewrite Hrun. unfold afterAgent, afterConn. cbn [trace].
  rewrite <- !app_assoc. cbn [app].
  repeat split; try reflexivity.
  - by intros e ->.
  - by intros -> ->.
  - by intros we -> -> ->.
  - by intros we se -> -> ->.
Qed.

(** The scenario of [TestClientConnErrStopErr]: the write fails with
    [io.ErrClosedPipe] and the agent's [Stop] with [io.ErrUnexpectedEOF]. *)
Lemma StartTo_registers_writes_and_undoes_witness :
  let w := worldOf [WithAgent (Some stopErrAgent);
                    WithPacketConn (Some pipeClosedConn)] in
  let h := HandlerFunc 0 in
  usable w stopErrAgent pipeClosedConn ∧ closed (client w) = false
  ∧ ClientAgent.start (TransactionID request) 5 h stopErrAgent
    = (None, stopErrAgent)
  ∧ PacketConn.writeTo (Raw request) stunServer pipeClosedConn
    = ((0, Some io_ErrClosedPipe), pipeClosedConn)
  ∧ ClientAgent.stop (TransactionID request) stopErrAgent
    = (Some io_ErrUnexpectedEOF, stopErrAgent)
  ∧ Client.StartTo request stunServer 5 (Some h) w
    = (Ret (Some (StopErr (Some io_ErrUnexpectedEOF) (Some io_ErrClosedPipe))),
       {| client := client w;
          trace := [AgentStart (TransactionID request) 5 h;
                    ConnWriteTo (Raw request) stunServer;
                    AgentStop (TransactionID request)] |}).
Proof.
  cbv zeta.
  assert (Hu : usable (worldOf [WithAgent (Some stopErrAgent);
                                WithPacketConn (Some pipeClosedConn)])
                 stopErrAgent pipeClosedConn).
  { repeat split; try reflexivity. by eexists. }
  split; [exact Hu|]. do 4 (split; [reflexivity|]).
  refine (proj2 (proj2 (proj2 (proj2 (proj2
    (StartTo_registers_writes_and_undoes _ _ _ request stunServer 5
       (HandlerFunc 0) None _ 0 (Some io_ErrClosedPipe) pipeClosedConn
       (Some io_ErrUnexpectedEOF) _ Hu eq_refl eq_refl eq_refl eq_refl)))))
    io_ErrClosedPipe io_ErrUnexpectedEOF eq_refl eq_refl eq_refl).
Defined.

(** ** Requests on a closed client *)

(** C10: on a client that [Close] has closed, [StartTo] returns
    [ErrClientClosed] and leaves the world as it was, whatever the message,
    address, deadline and handler: the agent and the connection are not
    called, no transaction is registered and nothing is written.  The same
    holds for [Start], [Indicate], [DoTo] and [Do], which end in [StartTo]. *)
Theorem StartTo_on_closed_client
    (w : World) (m : Message) raddr d (h : option Handler) :
  closedClient w →
  Client.StartTo m raddr d h w = (Ret (Some ErrClientClosed), w)
  ∧ Client.Start m d h w = (Ret (Some ErrClientClosed), w)
  ∧ Client.Indicate m w = (Ret (Some ErrClientClosed), w)
  ∧ Client.DoTo m raddr d w = (Ret (None, Some ErrClientClosed), w)
  ∧ Client.Do m d w = (Ret (None, Some ErrClientClosed), w).
Proof.
  intros Hw.
  assert (HDoTo : ∀ ra, Client.DoTo m ra d w
                        = (Ret (None, Some ErrClientClosed), w)).
  { intros ra. unfold Client.DoTo.
    rewrite (bind_ret _ _ _ _ _ (getClient_run w)), (proj1 Hw).
    by rewrite (bind_ret _ _ _ _ _ (StartTo_closed w m ra d _ Hw)). }
  repeat split.
  - by apply StartTo_closed.
  - unfold Client.Start. rewrite (bind_ret _ _ _ _ _ (getClient_run w)).
    by apply StartTo_closed.
  - unfold Client.Indicate, Client.Start.
    rewrite (bind_ret _ _ _ _ _ (getClient_run w)). by apply StartTo_closed.
  - apply HDoTo.
  - unfold Client.Do. rewrite (bind_ret _ _ _ _ _ (getClient_run w)).
    apply HDoTo.
Qed.

(** The end of [TestClient_Do]: [Do] after [Close] fails. *)
Lemma StartTo_on_closed_client_witness :
  let w := (Client.Close (worldOf [WithPacketConn (Some okConn)])).2 in
  closedClient w
  ∧ Client.StartTo request stunServer 5 (Some (HandlerFunc 0)) w
    = (Ret (Some ErrClientClosed), w)
  ∧ Client.Do request 5 w = (Ret (None, Some ErrClientClosed), w).
Proof.
  cbv zeta.
  assert (Hw : closedClient
                 (Client.Close (worldOf [WithPacketConn (Some okConn)])).2).
  { split; reflexivity. }
  split; [exact Hw|].
  pose proof (StartTo_on_closed_client _ request stunServer 5
                (Some (HandlerFunc 0)) Hw) as (H1 & _ & _ & _ & H5).
  split; [exact H1 | exact H5].
Defined.

(** ** Indicate *)

Lemma Indicate_unfold (m : Message) (w : World) :
  Client.Indicate m w
    = Client.StartTo m (serveraddr (client w)) zero_time None w.
Proof.
  unfold Client.Indicate, Client.Start.
  by rewrite (bind_ret _ _ _ _ _ (getClient_run w)).
Qed.

Lemma Indicate_open (m : Message) (w : World) ag pc n werr pc1 :
  usable w ag pc → closed (client w) = false →
  PacketConn.writeTo (Raw m) (serveraddr (client w)) pc = ((n, werr), pc1) →
  Client.Indicate m w
    = (Ret werr, afterConn pc1 (ConnWriteTo (Raw m) (serveraddr (client w))) w).
Proof.
  intros Hu Hcl Hwrite. rewrite Indicate_unfold.
  pose proof (usable_checkInit _ _ _ Hu) as Hi.
  destruct Hu as (Ha & Hc & _). unfold Client.StartTo.
  rewrite (bind_ret _ _ _ _ _ (getClient_run w)), Hi, Hcl.
  mstep ltac:(apply mret_run).
  mstep ltac:(eapply conn_run; [exact Hc | exact Hwrite]).
  by destruct werr.
Qed.

Lemma Indicate_keeps_agent (m : Message) (w : World) :
  a (client (Client.Indicate m w).2) = a (client w)
  ∧ ∃ calls, trace (Client.Indicate m w).2 = trace w ++ calls
             ∧ Forall (λ e, isAgentCall e = false) calls.
Proof.
  destruct (Client.checkInit (Some (client w))) as [e|] eqn:Hi.
  - assert (Hrun : Client.Indicate m w = (Ret (Some e), w)).
    { rewrite Indicate_unfold. unfold Client.StartTo.
      by rewrite (bind_ret _ _ _ _ _ (getClient_run w)), Hi. }
    rewrite Hrun. split; [reflexivity|].
    exists []. by rewrite app_nil_r.
  - destruct (closed (client w)) eqn:Hcl.
    + rewrite Indicate_unfold, StartTo_closed by done. split; [reflexivity|].
      exists []. by rewrite app_nil_r.
    + destruct (checkInit_usable w Hi) as (ag & pc & Hu).
      destruct (PacketConn.writeTo (Raw m) (serveraddr (client w)) pc)
        as [[n werr] pc1] eqn:Hwrite.
      rewrite (Indicate_open m w ag pc n werr pc1 Hu Hcl Hwrite).
      split; [reflexivity|].
      eexists. split; [reflexivity|]. by repeat constructor.
Qed.

(** C7: [Indicate m] is [StartTo] with the configured server address, the
    zero deadline and no handler.  It never calls the agent: the agent is as
    before and the trace gains no agent call.  On an initialised, open
    client the one call it makes is the write of the message's raw bytes to
    the server address, and it returns the error of that write as it is. *)
Theorem Indicate_is_StartTo_without_handler (m : Message) (w : World) :
  Client.Indicate m w
    = Client.StartTo m (serveraddr (client w)) zero_time None w
  ∧ a (client (Client.Indicate m w).2) = a (client w)
  ∧ (∃ calls, trace (Client.Indicate m w).2 = trace w ++ calls
              ∧ Forall (λ e, isAgentCall e = false) calls)
  ∧ (∀ ag pc n werr pc1,
       usable w ag pc → closed (client w) = false →
       PacketConn.writeTo (Raw m) (serveraddr (client w)) pc
         = ((n, werr), pc1) →
       Client.Indicate m w
         = (Ret werr,
            afterConn pc1 (ConnWriteTo (Raw m) (serveraddr (client w))) w)).
Proof.
  split; [apply Indicate_unfold|].
  split; [apply Indicate_keeps_agent|].
  split; [apply Indicate_keeps_agent|].
  intros ag pc n werr pc1. apply Indicate_open.
Qed.

(** The keep-alive of cmd/stun-traversal: an indication over a connection
    that accepts the write, and one over a connection whose writes fail. *)
Lemma Indicate_is_StartTo_without_handler_witness :
  let w := worldOf [WithPacketConn (Some pipeClosedConn);
                    WithSTUNServer stunServer] in
  usable w defaultAgent pipeClosedConn ∧ closed (client w) = false
  ∧ Client.Indicate request w
    = (Ret (Some io_ErrClosedPipe),
       {| client := client w;
          trace := [ConnWriteTo (Raw request) stunServer] |}).
Proof.
  cbv zeta.
  assert (Hu : usable (worldOf [WithPacketConn (Some pipeClosedConn);
                                WithSTUNServer stunServer])
                 defaultAgent pipeClosedConn).
  { repeat split; try reflexivity. by eexists. }
  split; [exact Hu|]. split; [reflexivity|].
  exact (proj2 (proj2 (proj2
    (Indicate_is_StartTo_without_handler request
       (worldOf [WithPacketConn (Some pipeClosedConn);
                 WithSTUNServer stunServer]))))
    defaultAgent pipeClosedConn 0 (Some io_ErrClosedPipe) pipeClosedConn
    Hu eq_refl eq_refl).
Defined.

(** ** The agent's collector *)

Section AgentCollect.

Implicit Types (l : list (N * (time * Handler))).
Implicit Types (m : gmap N (time * Handler)).

Lemma lookup_foldr_delete l m (id : N) :
  foldr (λ r m, delete r.1 m) m l !! id
    = if decide (id ∈ l.*1) then None else m !! id.
Proof.
  induction l as [|[k v] l IH]; cbn [foldr fmap list_fmap fst].
  - rewrite decide_False; [done | apply not_elem_of_nil].
  - destruct (decide (k = id)) as [->|Hne].
    + rewrite lookup_delete_eq, decide_True; [done | apply elem_of_cons; by left].
    + rewrite lookup_delete_ne by done. rewrite IH.
      destruct (decide (id ∈ l.*1)) as [Hin|Hnot].
      * rewrite decide_True; [done | apply elem_of_cons; by right].
      * rewrite decide_False; [done|].
        intros [->|Hin]%elem_of_cons; congruence.
Qed.

Lemma firedFor_absent l (e : error) (id : N) :
  id ∉ l.*1 →
  Agent.firedFor id (map (λ r, (r.2.2, Agent.errorEvent r.1 e)) l) = [].
Proof.
  induction l as [|[k v] l IH]; [done|].
  cbn [fmap list_fmap fst map]. intros Hnot.
  apply not_elem_of_cons in Hnot as [Hne Hnot].
  unfold Agent.firedFor in *. rewrite filter_cons. cbn.
  case_decide; [congruence | by apply IH].
Qed.

Lemma firedFor_present l (e : error) (id : N) d h :
  NoDup l.*1 → (id, (d, h)) ∈ l →
  Agent.firedFor id (map (λ r, (r.2.2, Agent.errorEvent r.1 e)) l)
    = [(h, Agent.errorEvent id e)].
Proof.
  induction l as [|[k v] l IH]; intros Hnd Hin.
  - by apply elem_of_nil in Hin.
  - cbn [fmap list_fmap fst] in Hnd. apply NoDup_cons in Hnd as [Hk Hnd].
    cbn [map]. unfold Agent.firedFor. rewrite filter_cons. cbn.
    apply elem_of_cons in Hin as [Heq|Hin].
    + injection Heq as <- <-. case_decide; [|done]. cbn.
      pose proof (firedFor_absent l e id Hk) as Habs.
      unfold Agent.firedFor in Habs. by rewrite Habs.
    + case_decide as Hkid.
      * subst k. exfalso. apply Hk.
        apply (list_elem_of_fmap_2 fst) in Hin. exact Hin.
      * by apply IH.
Qed.

Lemma timedOut_spec (now : time) (ag : Agent.t) (id : N) d h :
  (id, (d, h)) ∈ Agent.timedOut now ag
  ↔ Agent.transactions ag !! id = Some (d, h) ∧ d ≤ now.
Proof.
  unfold Agent.timedOut. rewrite list_elem_of_filter, elem_of_map_to_list.
  cbn. tauto.
Qed.

Lemma timedOut_keys (now : time) (ag : Agent.t) (id : N) :
  id ∈ (Agent.timedOut now ag).*1
  ↔ ∃ d h, Agent.transactions ag !! id = Some (d, h) ∧ d ≤ now.
Proof.
  rewrite list_elem_of_fmap. split.
  - intros ([k [d h]] & -> & Hin). exists d, h. by apply timedOut_spec.
  - intros (d & h & Hin). exists (id, (d, h)). split; [done|].
    by apply timedOut_spec.
Qed.

Lemma timedOut_NoDup (now : time) (ag : Agent.t) :
  NoDup (Agent.timedOut now ag).*1.
Proof.
  unfold Agent.timedOut.
  apply (sublist_NoDup _ (map_to_list (Agent.transactions ag)).*1).
  - apply NoDup_fst_map_to_list.
  - apply fmap_sublist, sublist_filter.
Qed.

End AgentCollect.

Lemma Close_sets_closed (ag : Agent.t) :
  Agent.closed (Agent.Close ag).2 = true.
Proof.
  unfold Agent.Close. by destruct (Agent.closed ag) eqn:Hcl.
Qed.

(** The invariant holds of a new agent and every operation keeps it. *)
Lemma wf_NewAgent (h : option Handler) : Agent.wf (Agent.NewAgent h).
Proof. intros H. discriminate H. Qed.

Lemma wf_preserved (ag : Agent.t) :
  Agent.wf ag →
  (∀ id d h, Agent.wf (Agent.Start id d h ag).2)
  ∧ (∀ id, Agent.wf (Agent.Stop id ag).2)
  ∧ (∀ m, Agent.wf (Agent.Process m ag).2)
  ∧ (∀ now, Agent.wf (Agent.Collect now ag).2)
  ∧ Agent.wf (Agent.Close ag).2.
Proof.
  intros Hwf. unfold Agent.wf.
  unfold Agent.Start, Agent.Stop, Agent.Process, Agent.Collect, Agent.Close.
  repeat split; intros;
    destruct (Agent.closed ag) eqn:Hcl; cbn [snd] in *; auto;
    repeat match goal with
           | H : context [match ?x with _ => _ end] |- _ =>
               destruct x eqn:?; cbn in H
           end;
    cbn in *; congruence.
Qed.

(** C3: whatever the state of the agent and the time [now], [Collect now]
    removes every registration whose deadline is at or before [now] and
    fires its handler once, with [ErrTransactionTimeOut]; a registration with
    a later deadline stays as it is and its handler is not fired; and nothing
    is fired for an id that has no registration.  [new] is what the call adds
    to the record of fired handlers. *)
Theorem Collect_times_out_the_expired (ag : Agent.t) (now : time) :
  Agent.wf ag →
  ∃ new : list (Handler * Event),
    Agent.fired (Agent.Collect now ag).2 = Agent.fired ag ++ new
    ∧ (∀ id d h,
         Agent.transactions ag !! id = Some (d, h) → d ≤ now →
         Agent.transactions (Agent.Collect now ag).2 !! id = None
         ∧ Agent.firedFor id new
           = [(h, Agent.errorEvent id ErrTransactionTimeOut)])
    ∧ (∀ id d h,
         Agent.transactions ag !! id = Some (d, h) → now < d →
         Agent.transactions (Agent.Collect now ag).2 !! id = Some (d, h)
         ∧ Agent.firedFor id new = [])
    ∧ (∀ id,
         Agent.transactions ag !! id = None →
         Agent.transactions (Agent.Collect now ag).2 !! id = None
         ∧ Agent.firedFor id new = []).
Proof.
  intros Hwf. unfold Agent.Collect.
  destruct (Agent.closed ag) eqn:Hcl.
  - exists []. cbn [snd]. rewrite app_nil_r. specialize (Hwf Hcl).
    rewrite Hwf. repeat split; try done; by rewrite lookup_empty in *.
  - eexists. cbn [snd Agent.fired Agent.transactions].
    split; [reflexivity|]. split; [|split].
    + intros id d h Hlk Hle. split.
      * rewrite lookup_foldr_delete, decide_True; [done|].
        apply (proj2 (timedOut_keys now ag id)). eauto.
      * apply (firedFor_present _ _ _ d); [apply timedOut_NoDup|].
        by apply timedOut_spec.
    + intros id d h Hlk Hlt.
      assert (Hnot : id ∉ (Agent.timedOut now ag).*1).
      { intros (d' & h' & Hlk' & Hle)%timedOut_keys.
        assert (d' = d) by congruence. lia. }
      split.
      * by rewrite lookup_foldr_delete, decide_False.
      * by apply firedFor_absent.
    + intros id Hlk. split.
      * rewrite lookup_foldr_delete. by case_decide.
      * apply firedFor_absent.
        intros (d' & h' & Hlk' & Hle)%timedOut_keys. congruence.
Qed.

(** [TestAgent_GC]: transaction 1 times out, transaction 6 does not. *)
Lemma Collect_times_out_the_expired_witness :
  Agent.wf gcAgent
  ∧ Agent.transactions gcAgent !! 1%N = Some (gcT, shouldTimeOut)
  ∧ gcT ≤ gcDeadline
  ∧ Agent.transactions gcAgent !! 6%N = Some (deadlineNotGC, shouldNotTimeOut)
  ∧ gcDeadline < deadlineNotGC
  ∧ Agent.transactions (Agent.Collect gcDeadline gcAgent).2 !! 1%N = None
  ∧ Agent.firedFor 1%N (Agent.fired (Agent.Collect gcDeadline gcAgent).2)
    = [(shouldTimeOut, Agent.errorEvent 1%N ErrTransactionTimeOut)]
  ∧ Agent.transactions (Agent.Collect gcDeadline gcAgent).2 !! 6%N
    = Some (deadlineNotGC, shouldNotTimeOut)
  ∧ Agent.firedFor 6%N (Agent.fired (Agent.Collect gcDeadline gcAgent).2) = [].
Proof.
  assert (Hwf : Agent.wf gcAgent) by (intros H; discriminate H).
  assert (H1 : Agent.transactions gcAgent !! 1%N = Some (gcT, shouldTimeOut))
    by (vm_compute; reflexivity).
  assert (H6 : Agent.transactions gcAgent !! 6%N
               = Some (deadlineNotGC, shouldNotTimeOut))
    by (vm_compute; reflexivity).
  assert (Hle : gcT ≤ gcDeadline) by (unfold gcDeadline; lia).
  assert (Hlt : gcDeadline < deadlineNotGC) by (unfold deadlineNotGC; lia).
  destruct (Collect_times_out_the_expired gcAgent gcDeadline Hwf)
    as (new & Hnew & Hexp & Hlive & _).
  change (Agent.fired gcAgent) with (@nil (Handler * Event)) in Hnew.
  cbn [app] in Hnew. rewrite Hnew.
  destruct (Hexp _ _ _ H1 Hle) as [Hx1 Hx2].
  destruct (Hlive _ _ _ H6 Hlt) as [Hy1 Hy2].
  repeat split; assumption.
Defined.

(** ** NewClient *)

Lemma applyOptions_conn (os : list StandardOption) (cl : Client) :
  c (applyOptions (map toOption os) cl)
    = match c cl with
      | Some pc => Some pc
      | None => firstConn os
      end.
Proof.
  revert cl. induction os as [|o os IH]; intros cl.
  - cbn. by destruct (c cl).
  - cbn [map applyOptions fold_left]. fold (applyOptions (map toOption os)).
    rewrite IH.
    unfold toOption, WithTimeoutRate, WithAgent, WithPacketConn, WithSTUNServer.
    destruct o as [d|ag|[pc|]|addr]; destruct (c cl) eqn:Hc; cbn;
      rewrite ?Hc; reflexivity.
Qed.

Lemma NewClient_cases (options : list ClientOption) :
  (c (applyOptions options emptyClient) = None
   ∧ NewClient options = (None, Some ErrNoConnection))
  ∨ (∃ cl pc, NewClient options = (Some cl, None) ∧ c cl = Some pc
              ∧ c (applyOptions options emptyClient) = Some pc).
Proof.
  unfold NewClient.
  destruct (c (applyOptions options emptyClient)) as [pc|] eqn:Hc.
  - right. destruct (a (applyOptions options emptyClient)) eqn:Ha;
      eexists _, pc; (split; [reflexivity|]); by split.
  - left. by split.
Qed.

(** C9: [NewClient] drops what the options return.  Whatever the option
    closures are and whatever errors they report, [NewClient] either returns a
    client and a nil error, or no client and [ErrNoConnection], the latter
    exactly when the options left [c.c] nil.  For the options of the package
    this is when none of them carries a non-nil connection, and otherwise the
    client keeps the first such connection: [NewClient(WithPacketConn(pa),
    WithPacketConn(pb))] succeeds with connection [pa] although the second
    option returns [ErrConnection]. *)
Theorem NewClient_ignores_option_errors :
  (∀ options : list ClientOption,
     (c (applyOptions options emptyClient) = None
      ∧ NewClient options = (None, Some ErrNoConnection))
     ∨ (∃ cl pc, NewClient options = (Some cl, None) ∧ c cl = Some pc
                 ∧ c (applyOptions options emptyClient) = Some pc))
  ∧ (∀ os : list StandardOption,
       match firstConn os with
       | None => NewClient (map toOption os) = (None, Some ErrNoConnection)
       | Some pc =>
           ∃ cl, NewClient (map toOption os) = (Some cl, None)
                 ∧ c cl = Some pc
       end)
  ∧ (∀ pa pb : PacketConn.t,
       (WithPacketConn (Some pb) (WithPacketConn (Some pa) emptyClient).2).1
         = Some ErrConnection
       ∧ NewClient [WithPacketConn (Some pa); WithPacketConn (Some pb)]
         = (Some (set_a (Some defaultAgent) (set_c (Some pa) emptyClient)),
            None)).
Proof.
  split; [exact NewClient_cases|]. split.
  - intros os.
    pose proof (applyOptions_conn os emptyClient) as Hc. cbn [c emptyClient] in Hc.
    destruct (NewClient_cases (map toOption os))
      as [[Hnone Hnew]|(cl & pc & Hnew & Hcl & Hsome)]; rewrite Hc in *.
    + by rewrite Hnone.
    + rewrite Hsome. by exists cl.
  - intros pa pb. split; reflexivity.
Qed.

(** ** IsMessage *)

Lemma byte_to_N_inj (x y : byte) : Byte.to_N x = Byte.to_N y → x = y.
Proof.
  intros H. pose proof (Byte.of_to_N x) as Hx. rewrite H, Byte.of_to_N in Hx.
  congruence.
Qed.

(** The model of [IsMessage] says what the specification says: at least
    twenty bytes, the two top bits of the first byte zero, and the bytes 4 to
    7 those of the magic cookie 21 12 A4 42. *)
Lemma IsMessage_spec (b : list byte) :
  IsMessage b = true
  ↔ (20 ≤ length b)%nat
    ∧ (∃ b0, head b = Some b0 ∧ (Byte.to_N b0 < 64)%N)
    ∧ slice b 4 8 = [Byte.x21; Byte.x12; Byte.xa4; Byte.x42].
Proof.
  unfold IsMessage, messageHeaderSize.
  rewrite !andb_true_iff, Nat.leb_le, N.eqb_eq.
  assert (Hshift : ∀ x : byte,
            (N.shiftr (Byte.to_N x) 6 =? 0)%N = true ↔ (Byte.to_N x < 64)%N).
  { intros x. rewrite N.eqb_eq, N.shiftr_div_pow2.
    change (2 ^ 6)%N with 64%N.
    split; intros H.
    - apply N.div_small_iff in H; lia.
    - apply N.div_small; lia. }
  split.
  - intros [[Hlen Htop] Hcookie].
    do 8 (destruct b as [|? b]; [cbn in Hlen; lia|]).
    split; [exact Hlen|]. split.
    + eexists. split; [reflexivity|]. by apply Hshift.
    + unfold slice in *. cbn in Hcookie |- *. rewrite take_0 in Hcookie |- *.
      cbn in Hcookie. unfold magicCookie in Hcookie.
      repeat match goal with
             | x : byte |- _ =>
                 lazymatch goal with
                 | H : (Byte.to_N x <= 255)%N |- _ => fail
                 | _ => pose proof (Byte.to_N_bounded x)
                 end
             end.
      f_equal; [|f_equal; [|f_equal; [|f_equal]]];
        apply byte_to_N_inj; cbn; lia.
  - intros (Hlen & (b0 & Hhead & Htop) & Hcookie).
    do 8 (destruct b as [|? b]; [cbn in Hlen; lia|]).
    cbn in Hhead. injection Hhead as ->.
    split; [split; [exact Hlen | by apply Hshift]|].
    rewrite Hcookie. reflexivity.
Qed.

(** ** ReadFrom *)

Section ReadFrom.

Variable Decode : Message → option error * Message.

Lemma sliceTo_run (b : list byte) (n : Z) (w : World) :
  0 ≤ n ≤ Z.of_nat (length b) →
  sliceTo b n w = (Ret (take (Z.to_nat n) b), w).
Proof.
  intros [H0 H1]. unfold sliceTo.
  by rewrite (proj2 (Z.leb_le _ _) H0), (proj2 (Z.leb_le _ _) H1).
Qed.

(** The read itself fails: [ReadFrom] returns that error. *)
Lemma ReadFrom_body_error (w : World) pc b b' n addr e pc1 :
  c (client w) = Some pc →
  PacketConn.readFrom b pc = ((b', n, addr, Some e), pc1) →
  Client.ReadFrom_body Decode b w
    = (Ret (inl (b', n, addr, Some e)), afterConn pc1 ConnReadFrom w).
Proof.
  intros Hc Hread. unfold Client.ReadFrom_body.
  by mstep ltac:(eapply conn_run; [exact Hc | exact Hread]).
Qed.

(** A datagram that is no STUN message, or does not decode. *)
Lemma ReadFrom_body_other (w : World) pc b b' n addr pc1 :
  c (client w) = Some pc →
  PacketConn.readFrom b pc = ((b', n, addr, None), pc1) →
  0 ≤ n ≤ Z.of_nat (length b') →
  IsMessage (take (Z.to_nat n) b') = false
  ∨ (∃ e m', Decode (set_Raw (take (Z.to_nat n) b') new_Message)
             = (Some e, m')) →
  Client.ReadFrom_body Decode b w
    = (Ret (inl (b', n, addr, None)), afterConn pc1 ConnReadFrom w).
Proof.
  intros Hc Hread Hn Hother. unfold Client.ReadFrom_body.
  mstep ltac:(eapply conn_run; [exact Hc | exact Hread]).
  mstep ltac:(apply sliceTo_run; exact Hn).
  destruct (IsMessage (take (Z.to_nat n) b')) eqn:His; [|reflexivity].
  destruct Hother as [?|(e & m' & Hdec)]; [discriminate|].
  cbn [negb]. by rewrite Hdec.
Qed.

(** A STUN message that decodes. *)
Lemma ReadFrom_body_message (w : World) ag pc b b' n addr pc1 m' perr ag1 :
  a (client w) = Some ag → c (client w) = Some pc →
  PacketConn.readFrom b pc = ((b', n, addr, None), pc1) →
  0 ≤ n ≤ Z.of_nat (length b') →
  IsMessage (take (Z.to_nat n) b') = true →
  Decode (set_Raw (take (Z.to_nat n) b') new_Message) = (None, m') →
  ClientAgent.process m' ag = (perr, ag1) →
  Client.ReadFrom_body Decode b w
    = (Ret match perr with
           | Some _ => inl (b', n, addr, perr)
           | None => inr b'
           end,
       afterAgent ag1 (AgentProcess m') (afterConn pc1 ConnReadFrom w)).
Proof.
  intros Ha Hc Hread Hn His Hdec Hproc. unfold Client.ReadFrom_body.
  mstep ltac:(eapply conn_run; [exact Hc | exact Hread]).
  mstep ltac:(apply sliceTo_run; exact Hn).
  rewrite His. cbn [negb]. rewrite Hdec.
  mstep ltac:(eapply agent_run; [exact Ha | exact Hproc]).
  by destruct perr.
Qed.

Lemma ReadFrom_return (fuel : nat) (b : list byte) (w w' : World) res :
  Client.ReadFrom_body Decode b w = (Ret (inl res), w') →
  Client.ReadFrom Decode (S fuel) b w = (Ret res, w').
Proof.
  intros H. cbn [Client.ReadFrom]. by rewrite (bind_ret _ _ _ _ _ H).
Qed.

Lemma ReadFrom_again (fuel : nat) (b b' : list byte) (w w' : World) :
  Client.ReadFrom_body Decode b w = (Ret (inr b'), w') →
  Client.ReadFrom Decode (S fuel) b w = Client.ReadFrom Decode fuel b' w'.
Proof.
  intros H. cbn [Client.ReadFrom]. by rewrite (bind_ret _ _ _ _ _ H).
Qed.

(** The read loop: the close signal has fired. *)
Lemma readUntilClosed_body_signal (fuel : nat) (buf : list byte) (w : World) :
  close (client w) = Some true →
  Client.readUntilClosed_body Decode fuel buf w = (Ret None, w).
Proof.
  intros H. unfold Client.readUntilClosed_body.
  by rewrite (bind_ret _ _ _ _ _ (getClient_run w)), H.
Qed.

(** The read loop: the close signal has not fired and [ReadFrom] returns. *)
Lemma readUntilClosed_body_read (fuel : nat) (buf : list byte)
    (w w' : World) buf' n addr err :
  close (client w) ≠ Some true →
  Client.ReadFrom Decode fuel buf w = (Ret (buf', n, addr, err), w') →
  Client.readUntilClosed_body Decode fuel buf w
    = (Ret (if is_ErrAgentClosed err then None else Some buf'), w').
Proof.
  intros Hopen Hread. unfold Client.readUntilClosed_body.
  rewrite (bind_ret _ _ _ _ _ (getClient_run w)).
  destruct (close (client w)) as [[|]|]; [congruence| |];
    rewrite (bind_ret _ _ _ _ _ Hread);
    by destruct (is_ErrAgentClosed err).
Qed.

Lemma readUntilClosed_loop_return (fuel rounds : nat) (buf : list byte)
    (w w' : World) :
  Client.readUntilClosed_body Decode fuel buf w = (Ret None, w') →
  Client.readUntilClosed_loop Decode fuel (S rounds) buf w = (Ret tt, w').
Proof.
  intros H. cbn [Client.readUntilClosed_loop].
  by rewrite (bind_ret _ _ _ _ _ H).
Qed.

Lemma readUntilClosed_loop_again (fuel rounds : nat) (buf buf' : list byte)
    (w w' : World) :
  Client.readUntilClosed_body Decode fuel buf w = (Ret (Some buf'), w') →
  Client.readUntilClosed_loop Decode fuel (S rounds) buf w
    = Client.readUntilClosed_loop Decode fuel rounds buf' w'.
Proof.
  intros H. cbn [Client.readUntilClosed_loop].
  by rewrite (bind_ret _ _ _ _ _ H).
Qed.

End ReadFrom.

Lemma is_ErrAgentClosed_true (err : option error) :
  is_ErrAgentClosed err = true ↔ err = Some ErrAgentClosed.
Proof.
  split; [|by intros ->].
  destruct err as [[]|]; cbn; congruence.
Qed.

Lemma is_ErrAgentClosed_false (e : error) :
  e ≠ ErrAgentClosed → is_ErrAgentClosed (Some e) = false.
Proof. destruct e; cbn; congruence. Qed.

(** C6: for a datagram that [ReadFrom] got from the connection, of [n] bytes
    within the buffer.  If the bytes pass [IsMessage] (at least 20 bytes, the
    two top bits of byte 0 zero, the magic cookie in bytes 4 to 7) and
    decode, the decoded message is handed to the agent's [Process], right
    after the read.  If they do not pass [IsMessage], or do not decode,
    [ReadFrom] returns [n] and the source address with a nil error, and the
    agent has not been called: it is as before and the trace holds the read
    alone. *)
Theorem ReadFrom_hands_STUN_to_agent_else_returns
    (Decode : Message → option error * Message)
    (w : World) ag pc (b b' : list byte) (n : Z) addr pc1 :
  a (client w) = Some ag → c (client w) = Some pc →
  PacketConn.readFrom b pc = ((b', n, addr, None), pc1) →
  0 ≤ n ≤ Z.of_nat (length b') →
  let raw := take (Z.to_nat n) b' in
  let w1 := afterConn pc1 ConnReadFrom w in
  (IsMessage raw = true
   ↔ (20 ≤ length raw)%nat
     ∧ (∃ b0, head raw = Some b0 ∧ (Byte.to_N b0 < 64)%N)
     ∧ slice raw 4 8 = [Byte.x21; Byte.x12; Byte.xa4; Byte.x42])
  ∧ (∀ m' perr ag1,
       IsMessage raw = true →
       Decode (set_Raw raw new_Message) = (None, m') →
       ClientAgent.process m' ag = (perr, ag1) →
       Client.ReadFrom_body Decode b w
         = (Ret match perr with
                | Some _ => inl (b', n, addr, perr)
                | None => inr b'
                end,
            afterAgent ag1 (AgentProcess m') w1))
  ∧ (IsMessage raw = false
     ∨ (∃ e m', Decode (set_Raw raw new_Message) = (Some e, m')) →
     a (client w1) = Some ag
     ∧ trace w1 = trace w ++ [ConnReadFrom]
     ∧ ∀ fuel, Client.ReadFrom Decode (S fuel) b w
               = (Ret (b', n, addr, None), w1)).
Proof.
  intros Ha Hc Hread Hn. cbv zeta. split; [apply IsMessage_spec|]. split.
  - intros m' perr ag1 His Hdec Hproc.
    by apply (ReadFrom_body_message Decode w ag pc b b' n addr pc1 m' perr ag1).
  - intros Hother. split; [exact Ha|]. split; [reflexivity|].
    intros fuel. apply ReadFrom_return.
    by apply (ReadFrom_body_other Decode w pc b b' n addr pc1).
Qed.

(** A connection that delivers the four bytes "ping": they come back to the
    caller and the agent is not called. *)
Lemma ReadFrom_hands_STUN_to_agent_else_returns_witness :
  let w := worldOf [WithAgent (Some (agentOf noErrors));
                    WithPacketConn (Some pingConn)] in
  let b' := bytesOf [112; 105; 110; 103]%N ++ replicate 28 Byte.x00 in
  a (client w) = Some (agentOf noErrors)
  ∧ c (client w) = Some pingConn
  ∧ PacketConn.readFrom buf32 pingConn = ((b', 4, None, None), pingConn)
  ∧ 0 ≤ 4 ≤ Z.of_nat (length b')
  ∧ IsMessage (take (Z.to_nat 4) b') = false
  ∧ Client.ReadFrom Decode 1 buf32 w
    = (Ret (b', 4, None, None),
       {| client := client w; trace := [ConnReadFrom] |}).
Proof.
  cbv zeta.
  assert (Hn : 0 ≤ 4 ≤ Z.of_nat (length (bytesOf [112; 105; 110; 103]%N
                                            ++ replicate 28 Byte.x00)))
    by (cbn; lia).
  split; [reflexivity|]. split; [reflexivity|]. split; [reflexivity|].
  split; [exact Hn|]. split; [reflexivity|].
  exact (proj2 (proj2 (proj2 (proj2
    (ReadFrom_hands_STUN_to_agent_else_returns Decode
       (worldOf [WithAgent (Some (agentOf noErrors));
                 WithPacketConn (Some pingConn)])
       (agentOf noErrors) pingConn buf32
       (bytesOf [112; 105; 110; 103]%N ++ replicate 28 Byte.x00)
       4 None pingConn eq_refl eq_refl eq_refl Hn))
    (or_introl eq_refl))) 0%nat).
Defined.

(** ** The read loop *)



(** While the close signal has not fired, a connection whose every read
    fails with the same error, other than [ErrAgentClosed], keeps the loop
    going for as many passes as it is given: one read per pass, no return. *)
Lemma readUntilClosed_loop_spins
    (Decode : Message → option error * Message)
    (pc : PacketConn.t) (e : error) (fuel rounds : nat) (buf : list byte) :
  (∀ b, PacketConn.readFrom b pc = ((b, 0, None, Some e), pc)) →
  e ≠ ErrAgentClosed →
  ∀ w : World,
    c (client w) = Some pc → close (client w) ≠ Some true →
    ∃ w', Client.readUntilClosed_loop Decode (S fuel) rounds buf w
            = (OutOfFuel, w')
          ∧ trace w' = trace w ++ replicate rounds ConnReadFrom.
Proof.
  intros Hfail Hne. induction rounds as [|rounds IH]; intros w Hc Hopen.
  - exists w. split; [reflexivity|]. by rewrite app_nil_r.
  - assert (HR : Client.ReadFrom Decode (S fuel) buf w
                 = (Ret (buf, 0, None, Some e), afterConn pc ConnReadFrom w)).
    { apply ReadFrom_return.
      by apply (ReadFrom_body_error Decode w pc buf buf 0 None e pc). }
    pose proof (readUntilClosed_body_read Decode _ _ _ _ _ _ _ _ Hopen HR)
      as Hbody.
    rewrite (is_ErrAgentClosed_false e Hne) in Hbody.
    rewrite (readUntilClosed_loop_again Decode _ _ _ _ _ _ Hbody).
    destruct (IH (afterConn pc ConnReadFrom w)) as (w' & Hloop & Htrace);
      [reflexivity | exact Hopen |].
    exists w'. split; [exact Hloop|].
    rewrite Htrace. cbn [afterConn trace replicate].
    by rewrite <- app_assoc.
Qed.

(** C4, as stated, fails on its last clause.  The connection of
    [BenchmarkClient_Do] fails every read with [io.EOF], as a closed endpoint
    does; with the close signal not yet fired the loop does not return on
    that failure: the pass ends with "go round again", and three passes make
    three reads and are still not done. *)
Lemma readUntilClosed_goes_on_after_read_failure :
  let w := worldOf [WithAgent (Some (agentOf noErrors));
                    WithPacketConn (Some noopConn)] in
  PacketConn.readFrom buf32 noopConn = ((buf32, 0, None, Some io_EOF), noopConn)
  ∧ close (client w) = Some false
  ∧ Client.readUntilClosed_body Decode 1 buf32 w
    = (Ret (Some buf32), afterConn noopConn ConnReadFrom w)
  ∧ Client.readUntilClosed_loop Decode 1 3 buf32 w
    = (OutOfFuel,
       {| client := client w;
          trace := [ConnReadFrom; ConnReadFrom; ConnReadFrom] |}).
Proof. cbv zeta. repeat split; reflexivity. Qed.

(** C4, amended: what ends the read loop and what does not.  A pass of the
    loop returns at once, without a read, when the close signal has fired.
    Otherwise it calls [ReadFrom], which reads datagrams one after the other:
    a STUN message that decodes is handed to the agent's [Process], and when
    [Process] returns nil [ReadFrom] reads the next datagram itself; a
    datagram that is no STUN message or does not decode ends [ReadFrom] with
    a nil error and the loop drops it and goes round again.  After
    [ReadFrom] the loop returns only for [ErrAgentClosed]: a read that fails
    with any other error, and a [Process] that fails with any other error,
    leave the loop running. *)
Theorem readUntilClosed_ends_on_signal_or_ErrAgentClosed
    (Decode : Message → option error * Message)
    (w : World) ag pc (buf b' : list byte) (n : Z) addr rerr pc1 (fuel : nat) :
  a (client w) = Some ag → c (client w) = Some pc →
  PacketConn.readFrom buf pc = ((b', n, addr, rerr), pc1) →
  let raw := take (Z.to_nat n) b' in
  let w1 := afterConn pc1 ConnReadFrom w in
  (close (client w) = Some true →
     Client.readUntilClosed_body Decode (S fuel) buf w = (Ret None, w)
     ∧ ∀ rounds,
         Client.readUntilClosed_loop Decode (S fuel) (S rounds) buf w
           = (Ret tt, w))
  ∧ (close (client w) ≠ Some true →
     (∀ e, rerr = Some e →
        Client.readUntilClosed_body Decode (S fuel) buf w
          = (Ret (if is_ErrAgentClosed (Some e) then None else Some b'), w1)
        ∧ (e ≠ ErrAgentClosed →
           Client.readUntilClosed_body Decode (S fuel) buf w
             = (Ret (Some b'), w1)))
     ∧ (rerr = None → 0 ≤ n ≤ Z.of_nat (length b') →
        (IsMessage raw = false
         ∨ (∃ e m', Decode (set_Raw raw new_Message) = (Some e, m')) →
         Client.readUntilClosed_body Decode (S fuel) buf w
           = (Ret (Some b'), w1))
        ∧ (∀ m' perr ag1,
             IsMessage raw = true →
             Decode (set_Raw raw new_Message) = (None, m') →
             ClientAgent.process m' ag = (perr, ag1) →
             let w2 := afterAgent ag1 (AgentProcess m') w1 in
             match perr with
             | Some e =>
                 Client.readUntilClosed_body Decode (S fuel) buf w
                   = (Ret (if is_ErrAgentClosed (Some e) then None
                           else Some b'), w2)
             | None =>
                 Client.ReadFrom Decode (S fuel) buf w
                   = Client.ReadFrom Decode fuel b' w2
             end))).
Proof.
  intros Ha Hc Hread. cbv zeta. split.
  - intros Hsig. split; [by apply readUntilClosed_body_signal|].
    intros rounds. by apply readUntilClosed_loop_return,
                     readUntilClosed_body_signal.
  - intros Hopen. split.
    + intros e ->.
      assert (HR : Client.ReadFrom Decode (S fuel) buf w
                   = (Ret (b', n, addr, Some e), afterConn pc1 ConnReadFrom w)).
      { apply ReadFrom_return.
        by apply (ReadFrom_body_error Decode w pc buf b' n addr e pc1). }
      rewrite (readUntilClosed_body_read Decode _ _ _ _ _ _ _ _ Hopen HR).
      split; [reflexivity|].
      intros Hne. by rewrite (is_ErrAgentClosed_false e Hne).
    + intros -> Hn. split.
      * intros Hother.
        assert (HR : Client.ReadFrom Decode (S fuel) buf w
                     = (Ret (b', n, addr, None), afterConn pc1 ConnReadFrom w)).
        { apply ReadFrom_return.
          by apply (ReadFrom_body_other Decode w pc buf b' n addr pc1). }
        by rewrite (readUntilClosed_body_read Decode _ _ _ _ _ _ _ _ Hopen HR).
      * intros m' perr ag1 His Hdec Hproc.
        pose proof (ReadFrom_body_message Decode w ag pc buf b' n addr pc1
                      m' perr ag1 Ha Hc Hread Hn His Hdec Hproc) as Hbody.
        destruct perr as [e|].
        -- apply (ReadFrom_return Decode fuel) in Hbody.
           by rewrite (readUntilClosed_body_read Decode _ _ _ _ _ _ _ _
                         Hopen Hbody).
        -- by apply ReadFrom_again.
Qed.

(** The same client as above: the read fails with [io.EOF], the pass ends
    with the buffer for the next pass. *)
Lemma readUntilClosed_ends_on_signal_or_ErrAgentClosed_witness :
  let w := worldOf [WithPacketConn (Some stoppedConn)] in
  a (client w) = Some defaultAgent ∧ c (client w) = Some stoppedConn
  ∧ PacketConn.readFrom buf32 stoppedConn
    = ((buf32, 0, None, Some io_EOF), stoppedConn)
  ∧ close (client w) ≠ Some true
  ∧ Client.readUntilClosed_body Decode 1 buf32 w
    = (Ret (Some buf32), afterConn stoppedConn ConnReadFrom w).
Proof.
  cbv zeta.
  assert (Hopen : close (client (worldOf [WithPacketConn (Some stoppedConn)]))
                  ≠ Some true) by discriminate.
  assert (Hne : io_EOF ≠ ErrAgentClosed) by discriminate.
  split; [reflexivity|]. split; [reflexivity|]. split; [reflexivity|].
  split; [exact Hopen|].
  exact (proj2 (proj1 (proj2
    (readUntilClosed_ends_on_signal_or_ErrAgentClosed Decode
       (worldOf [WithPacketConn (Some stoppedConn)])
       defaultAgent stoppedConn buf32 buf32 0 None (Some io_EOF) stoppedConn
       0%nat eq_refl eq_refl eq_refl) Hopen) io_EOF eq_refl) Hne).
Defined.

(** ** The collector loop *)

Lemma closedOrPanic_passes (err : option error) (w : World) :
  passes err → closedOrPanic err w = (Ret tt, w).
Proof. by intros [->| ->]. Qed.

Lemma closedOrPanic_panics (e : error) (w : World) :
  e ≠ ErrAgentClosed → closedOrPanic (Some e) w = (Panic (PanicErr e), w).
Proof.
  intros Hne. unfold closedOrPanic. by rewrite (is_ErrAgentClosed_false e Hne).
Qed.

Lemma collect_tick (w : World) ag gcTime err ag1 :
  a (client w) = Some ag →
  ClientAgent.collect gcTime ag = (err, ag1) →
  Client.collectUntilClosed_body (caseTick gcTime) w
    = (match err with
       | None => Ret false
       | Some e => if is_ErrAgentClosed err then Ret false
                   else Panic (PanicErr e)
       end,
       afterAgent ag1 (AgentCollect gcTime) w).
Proof.
  intros Ha Hcollect. unfold Client.collectUntilClosed_body, Client.Collect.
  mstep ltac:(eapply agent_run; [exact Ha | exact Hcollect]).
  unfold closedOrPanic.
  destruct err as [e|]; [|reflexivity].
  by destruct (is_ErrAgentClosed (Some e)).
Qed.

Lemma collect_signal (w : World) :
  close (client w) = Some true →
  Client.collectUntilClosed_body caseClose w
    = (Ret true, {| client := client w; trace := trace w ++ [TickerStop] |}).
Proof.
  intros H. unfold Client.collectUntilClosed_body.
  by rewrite (bind_ret _ _ _ _ _ (getClient_run w)), H.
Qed.

(** Ticks whose collections all pass, then the close signal: the loop
    returns, having called [Collect] once per tick, in order, and stopped the
    ticker. *)
Lemma collectUntilClosed_loop_ticks (ts : list time) :
  ∀ (w : World) ag rest,
    a (client w) = Some ag → close (client w) = Some true →
    Forall passes (collectRun ts ag).1 →
    ∃ w', Client.collectUntilClosed_loop (map caseTick ts ++ caseClose :: rest) w
            = (Ret tt, w')
          ∧ trace w' = trace w ++ map AgentCollect ts ++ [TickerStop]
          ∧ a (client w') = Some (collectRun ts ag).2
          ∧ wg (client w') = wg (client w)
          ∧ gcRate (client w') = gcRate (client w).
Proof.
  induction ts as [|t ts IH]; intros w ag rest Ha Hch Hpass.
  - cbn [map app Client.collectUntilClosed_loop collectRun snd].
    rewrite (bind_ret _ _ _ _ _ (collect_signal w Hch)).
    eexists. split; [reflexivity|]. cbn. by repeat split.
  - cbn [map app Client.collectUntilClosed_loop collectRun] in *.
    destruct (ClientAgent.collect t ag) as [err ag1] eqn:Hcollect.
    destruct (collectRun ts ag1) as [errs ag2] eqn:Hrun.
    cbn [fst snd] in *. apply Forall_cons in Hpass as [Herr Hpass].
    rewrite (bind_ret _ _ w (afterAgent ag1 (AgentCollect t) w) false).
    2:{ rewrite (collect_tick w ag t err ag1 Ha Hcollect).
        by destruct Herr as [->| ->]. }
    destruct (IH (afterAgent ag1 (AgentCollect t) w) ag1 rest) as
      (w' & Hloop & Htrace & Hag & Hwg & Hrate); [done|done|by rewrite Hrun|].
    exists w'. split; [exact Hloop|]. rewrite Htrace, Hag, Hrun, Hwg, Hrate.
    cbn. rewrite <- app_assoc. by repeat split.
Qed.

(** C8: a tick of the collector calls the agent's [Collect] with the tick's
    time and hands the result to [closedOrPanic]; the pass panics, with that
    error, exactly when the result is neither nil nor [ErrAgentClosed], and
    otherwise the loop goes on.  On the close signal the pass stops the
    ticker and the loop returns; a run of ticks whose collections pass,
    followed by the close signal, ends without a panic, with one [Collect]
    per tick and the ticker stopped. *)
Theorem collectUntilClosed_panics_only_on_other_errors
    (w : World) ag (gcTime : time) err ag1 :
  a (client w) = Some ag →
  ClientAgent.collect gcTime ag = (err, ag1) →
  let w1 := afterAgent ag1 (AgentCollect gcTime) w in
  (passes err →
     Client.collectUntilClosed_body (caseTick gcTime) w = (Ret false, w1))
  ∧ (∀ e, err = Some e → e ≠ ErrAgentClosed →
       Client.collectUntilClosed_body (caseTick gcTime) w
         = (Panic (PanicErr e), w1))
  ∧ ((∃ p, (Client.collectUntilClosed_body (caseTick gcTime) w).1 = Panic p)
     ↔ err ≠ None ∧ err ≠ Some ErrAgentClosed)
  ∧ (close (client w) = Some true →
     Client.collectUntilClosed_body caseClose w
       = (Ret true, {| client := client w; trace := trace w ++ [TickerStop] |})
     ∧ ∀ ts rest,
         Forall passes (collectRun ts ag).1 →
         0 < gcRate (client w) → 0 < wg (client w) →
         ∃ w', Client.collectUntilClosed (map caseTick ts ++ caseClose :: rest) w
                 = (Ret tt, w')
               ∧ trace w' = trace w ++ map AgentCollect ts ++ [TickerStop]
               ∧ wg (client w') = wg (client w) - 1).
Proof.
  intros Ha Hcollect. cbv zeta.
  pose proof (collect_tick w ag gcTime err ag1 Ha Hcollect) as Htick.
  split; [|split; [|split]].
  - intros [->| ->]; exact Htick.
  - intros e -> Hne. by rewrite Htick, (is_ErrAgentClosed_false e Hne).
  - rewrite Htick. cbn [fst]. split.
    + intros [p Hp]. destruct err as [e|]; [|discriminate]. split; [done|].
      intros Heq. by rewrite Heq in Hp.
    + intros [Hsome Hne]. destruct err as [e|]; [|done].
      assert (Hne' : e ≠ ErrAgentClosed) by congruence.
      rewrite (is_ErrAgentClosed_false e Hne'). by eexists.
  - intros Hch. split; [by apply collect_signal|].
    intros ts rest Hpass Hrate Hwg.
    destruct (collectUntilClosed_loop_ticks ts w ag rest Ha Hch Hpass)
      as (w' & Hloop & Htrace & _ & Hwg' & _).
    unfold Client.collectUntilClosed, defer.
    rewrite (bind_ret _ _ _ _ _ (getClient_run w)).
    rewrite (proj2 (Z.leb_gt _ _) Hrate), Hloop.
    unfold Client.wg_Done, Client.wg_Add.
    rewrite (bind_ret _ _ _ _ _ (getClient_run w')), Hwg'.
    destruct (wg (client w) + -1 <? 0) eqn:Hneg; [apply Z.ltb_lt in Hneg; lia|].
    cbn. eexists. split; [reflexivity|]. split; [exact Htrace|]. cbn. lia.
Qed.

(** [TestClosedOrPanic] and [TestClientGC]: [io.EOF] from [Collect] panics
    with [io.EOF]; two ticks over an agent whose [Collect] returns nil and then
    the close signal end the goroutine. *)
Lemma collectUntilClosed_panics_only_on_other_errors_witness :
  a (client signalledWorld) = Some (agentOf noErrors)
  ∧ ClientAgent.collect 7 (agentOf noErrors) = (None, agentOf noErrors)
  ∧ close (client signalledWorld) = Some true
  ∧ Forall passes (collectRun [7; 8] (agentOf noErrors)).1
  ∧ (Client.collectUntilClosed [caseTick 7; caseTick 8; caseClose]
       signalledWorld).1 = Ret tt
  ∧ closedOrPanic (Some io_EOF) signalledWorld
    = (Panic (PanicErr io_EOF), signalledWorld).
Proof.
  assert (Hpass : Forall passes (collectRun [7; 8] (agentOf noErrors)).1).
  { cbn. repeat constructor. }
  split; [reflexivity|]. split; [reflexivity|]. split; [reflexivity|].
  split; [exact Hpass|]. split; [|reflexivity].
  destruct (proj2 (proj2 (proj2 (proj2
      (collectUntilClosed_panics_only_on_other_errors signalledWorld
         (agentOf noErrors) 7 None (agentOf noErrors) eq_refl eq_refl)))
      eq_refl) [7; 8] [] Hpass ltac:(reflexivity) ltac:(reflexivity))
    as (w' & Hrun & _).
  cbn [map app] in Hrun. by rewrite Hrun.
Defined.

(** ** Close *)



(** * Further properties *)

(** ** What every run keeps *)

Lemma comesAfter_invariant : invariant comesAfter.
Proof.
  split.
  - intros w. unfold comesAfter. repeat split; try done.
    exists []. by rewrite app_nil_r.
  - intros w1 w2 w3 (H1 & H2 & H3 & H4 & H5 & H6 & H7 & calls & Ht)
                    (K1 & K2 & K3 & K4 & K5 & K6 & K7 & calls' & Kt).
    unfold comesAfter. repeat split; auto; try congruence.
    exists (calls ++ calls'). by rewrite Kt, Ht, app_assoc.
  - intros w e. unfold comesAfter. cbn. repeat split; try done. by exists [e].
  - intros w v e. unfold comesAfter. cbn.
    repeat split; try done; try (by eexists); by exists [e].
  - intros w v e. unfold comesAfter. cbn.
    repeat split; try done; try (by eexists); by exists [e].
  - intros w. unfold comesAfter. cbn.
    repeat split; try done; try (by eexists); exists []; by rewrite app_nil_r.
  - intros w. unfold comesAfter. cbn.
    repeat split; try done; try (by eexists); exists []; by rewrite app_nil_r.
Qed.

Lemma sameCounter_invariant : invariant sameCounter.
Proof.
  split; unfold sameCounter; try (intros; reflexivity).
  intros w1 w2 w3 H1 H2. by rewrite H2.
Qed.

Lemma comesAfter_closedClient (w w' : World) :
  comesAfter w w' → closedClient w → closedClient w'.
Proof.
  intros (H1 & _ & H3 & H4 & H5 & _) [Hi Hc]. split; [|auto].
  destruct (checkInit_usable w Hi) as (ag & pc & Ha & Hpc & Hch).
  unfold Client.checkInit.
  destruct H4 as [? ->]; [by rewrite Ha|].
  destruct H5 as [? ->]; [by rewrite Hpc|].
  by destruct (H3 Hch) as [? ->].
Qed.

Lemma respects_ret R {X : Type} (x : X) :
  invariant R → respects R (mret x : M X).
Proof. intros HR w. apply (inv_refl R HR). Qed.

Lemma respects_bind R {X Y : Type} (m : M X) (k : X → M Y) :
  invariant R → respects R m → (∀ x, respects R (k x)) → respects R (m ≫= k).
Proof.
  intros HR Hm Hk w. specialize (Hm w). unfold mbind, M_bind.
  destruct (m w) as [[x|p| |] w']; cbn [snd] in *; try exact Hm.
  eapply (inv_trans R HR); [exact Hm | apply Hk].
Qed.

Lemma respects_panic R {X : Type} (p : PanicValue) :
  invariant R → respects R (panic p : M X).
Proof. intros HR w. apply (inv_refl R HR). Qed.

Lemma respects_blocked R {X : Type} : invariant R → respects R (blocked : M X).
Proof. intros HR w. apply (inv_refl R HR). Qed.

Lemma respects_out_of_fuel R {X : Type} :
  invariant R → respects R (out_of_fuel : M X).
Proof. intros HR w. apply (inv_refl R HR). Qed.

Lemma respects_getClient R : invariant R → respects R getClient.
Proof. intros HR w. apply (inv_refl R HR). Qed.

Lemma respects_record R (e : Call) : invariant R → respects R (record e).
Proof. intros HR w. apply (inv_record R HR). Qed.

Lemma respects_set_closed R :
  invariant R → respects R (modifyClient (set_closed true)).
Proof. intros HR w. apply (inv_closed R HR). Qed.

Lemma respects_set_close R :
  invariant R → respects R (modifyClient (set_close (Some true))).
Proof. intros HR w. apply (inv_close R HR). Qed.

Lemma respects_agent R {X : Type} (e : Call)
    (f : ClientAgent.t → X * ClientAgent.t) :
  invariant R → respects R (agent e f).
Proof.
  intros HR w. unfold agent.
  destruct (a (client w)) as [v|]; [|apply (inv_refl R HR)].
  destruct (f v) as [x v']. apply (inv_agent R HR).
Qed.

Lemma respects_conn R {X : Type} (e : Call)
    (f : PacketConn.t → X * PacketConn.t) :
  invariant R → respects R (conn e f).
Proof.
  intros HR w. unfold conn.
  destruct (c (client w)) as [v|]; [|apply (inv_refl R HR)].
  destruct (f v) as [x v']. apply (inv_conn R HR).
Qed.

Lemma respects_defer R {X : Type} (d : M unit) (body : M X) :
  invariant R → respects R d → respects R body → respects R (defer d body).
Proof.
  intros HR Hd Hb w. specialize (Hb w). unfold defer.
  destruct (body w) as [[x|p| |] w']; cbn [snd] in *; try exact Hb;
    specialize (Hd w'); destruct (d w') as [[?|?| |] w''];
    cbn [snd] in *; by eapply (inv_trans R HR).
Qed.

(** Breaks a computation down to the steps above. *)
Ltac respects_step :=
  lazymatch goal with
  | |- invariant _ => assumption
  | |- respects _ (mret _) => apply respects_ret
  | |- respects _ (_ ≫= _) => apply respects_bind; [| |intros ?]
  | |- respects _ (panic _) => apply respects_panic
  | |- respects _ blocked => apply respects_blocked
  | |- respects _ out_of_fuel => apply respects_out_of_fuel
  | |- respects _ getClient => apply respects_getClient
  | |- respects _ (record _) => apply respects_record
  | |- respects _ (modifyClient (set_closed true)) => apply respects_set_closed
  | |- respects _ (modifyClient (set_close (Some true))) =>
      apply respects_set_close
  | |- respects _ (agent _ _) => apply respects_agent
  | |- respects _ (conn _ _) => apply respects_conn
  | |- respects _ (defer _ _) => apply respects_defer
  | |- respects _ (match ?x with _ => _ end) => destruct x
  | |- respects _ _ =>
      first [ assumption
            | match goal with
              | H : context [respects] |- _ => apply H
              end ]
  end.

Ltac respects_all := repeat respects_step.

Lemma respects_StartTo R m raddr d h :
  invariant R → respects R (Client.StartTo m raddr d h).
Proof.
  intros HR.
  unfold Client.StartTo, Client.a_Start, Client.a_Stop, Client.c_WriteTo.
  respects_all.
Qed.

Lemma respects_DoTo R m raddr d :
  invariant R → respects R (Client.DoTo m raddr d).
Proof.
  intros HR. pose proof (λ m raddr d h, respects_StartTo R m raddr d h HR)
    as HStartTo.
  unfold Client.DoTo. respects_all.
Qed.

Lemma respects_Close R : invariant R → respects R Client.Close.
Proof.
  intros HR.
  unfold Client.Close, Client.a_Close, Client.c_Close, Client.closeChan,
    Client.wg_Wait.
  respects_all.
Qed.

Lemma respects_ReadFrom R (Decode : Message → option error * Message)
    (fuel : nat) :
  invariant R → ∀ b, respects R (Client.ReadFrom Decode fuel b).
Proof.
  intros HR.
  induction fuel as [|fuel IH]; intros b; cbn [Client.ReadFrom];
    [respects_all|].
  unfold Client.ReadFrom_body, Client.c_ReadFrom, Client.a_Process, sliceTo.
  respects_all.
Qed.

Lemma respects_readUntilClosed_loop R
    (Decode : Message → option error * Message) (fuel rounds : nat) :
  invariant R →
  ∀ buf, respects R (Client.readUntilClosed_loop Decode fuel rounds buf).
Proof.
  intros HR.
  induction rounds as [|rounds IH]; intros buf;
    cbn [Client.readUntilClosed_loop]; [respects_all|].
  unfold Client.readUntilClosed_body.
  pose proof (respects_ReadFrom R Decode fuel HR). respects_all.
Qed.

Lemma respects_collectUntilClosed_loop R (sched : list selectCase) :
  invariant R → respects R (Client.collectUntilClosed_loop sched).
Proof.
  intros HR.
  induction sched as [|sel sched IH]; cbn [Client.collectUntilClosed_loop];
    [respects_all|].
  unfold Client.collectUntilClosed_body, Client.Collect, Client.a_Collect,
    closedOrPanic.
  respects_all.
Qed.

Lemma movesOn_wg_Add (delta : Z) : movesOn (Client.wg_Add delta).
Proof.
  intros w. unfold Client.wg_Add, mbind, M_bind. cbn.
  destruct (wg (client w) + delta <? 0);
    [apply (inv_refl _ comesAfter_invariant)|].
  unfold comesAfter. cbn.
  repeat split; try done; try (by eexists); exists []; by rewrite app_nil_r.
Qed.

(** X1: no method of the client undoes a [Close] or touches what was set at
    construction.  After any run of [Close], [StartTo], [Start], [Indicate],
    [DoTo], [Do], [Collect], [WriteTo], [LocalAddr], [ReadFrom],
    [HandleTransactions] or of one of the two background goroutines, however
    it ends, a closed flag that was set is still set, a closed channel is
    still closed, agent, connection and channel are still there, the timeout
    rate and the server address are what they were, and the trace has only
    grown. *)
Theorem client_methods_keep_closed
    (Decode : Message → option error * Message) :
  movesOn Client.Close
  ∧ (∀ m raddr d h, movesOn (Client.StartTo m raddr d h))
  ∧ (∀ m d h, movesOn (Client.Start m d h))
  ∧ (∀ m, movesOn (Client.Indicate m))
  ∧ (∀ m raddr d, movesOn (Client.DoTo m raddr d))
  ∧ (∀ m d, movesOn (Client.Do m d))
  ∧ (∀ gcTime, movesOn (Client.Collect gcTime))
  ∧ (∀ b addr, movesOn (Client.WriteTo b addr))
  ∧ movesOn Client.LocalAddr
  ∧ (∀ fuel b, movesOn (Client.ReadFrom Decode fuel b))
  ∧ movesOn Client.HandleTransactions
  ∧ (∀ fuel rounds, movesOn (Client.readUntilClosed Decode fuel rounds))
  ∧ (∀ sched, movesOn (Client.collectUntilClosed sched))
  ∧ ∀ w w', comesAfter w w' → closedClient w → closedClient w'.
Proof.
  pose proof comesAfter_invariant as HR.
  pose proof (λ m raddr d h, respects_StartTo comesAfter m raddr d h HR)
    as HStartTo.
  pose proof (λ m raddr d, respects_DoTo comesAfter m raddr d HR) as HDoTo.
  pose proof movesOn_wg_Add as HAdd.
  unfold movesOn in *.
  repeat match goal with |- _ ∧ _ => split end.
  - by apply respects_Close.
  - exact HStartTo.
  - intros m d h. unfold Client.Start. respects_all.
  - intros m. unfold Client.Indicate, Client.Start. respects_all.
  - exact HDoTo.
  - intros m d. unfold Client.Do. respects_all.
  - intros gcTime. unfold Client.Collect, Client.a_Collect. respects_all.
  - intros b addr. unfold Client.WriteTo, Client.c_WriteTo. respects_all.
  - unfold Client.LocalAddr. respects_all.
  - intros fuel b. by apply respects_ReadFrom.
  - unfold Client.HandleTransactions, Client.ReadUntilClosed,
      Client.CollectUntilClosed. respects_all.
  - intros fuel rounds. unfold Client.readUntilClosed, Client.wg_Done.
    pose proof (respects_readUntilClosed_loop comesAfter Decode fuel rounds HR).
    respects_all.
  - intros sched. unfold Client.collectUntilClosed, Client.wg_Done.
    pose proof (respects_collectUntilClosed_loop comesAfter sched HR).
    respects_all.
  - exact comesAfter_closedClient.
Qed.

(** ** Clients that are not initialised *)

Lemma checkInit_uninitialised (w : World) :
  a (client w) = None ∨ c (client w) = None ∨ close (client w) = None →
  Client.checkInit (Some (client w)) = Some ErrClientNotInitialized.
Proof.
  unfold Client.checkInit.
  destruct (c (client w)), (a (client w)), (close (client w)); try done.
  by intros [|[|]].
Qed.

Lemma StartTo_uninitialised (w : World) m raddr d h :
  a (client w) = None ∨ c (client w) = None ∨ close (client w) = None →
  Client.StartTo m raddr d h w = (Ret (Some ErrClientNotInitialized), w).
Proof.
  intros Hnil. unfold Client.StartTo.
  by rewrite (bind_ret _ _ _ _ _ (getClient_run w)),
       (checkInit_uninitialised w Hnil).
Qed.

Lemma DoTo_uninitialised (w : World) m raddr d :
  a (client w) = None ∨ c (client w) = None ∨ close (client w) = None →
  Client.DoTo m raddr d w = (Ret (None, Some ErrClientNotInitialized), w).
Proof.
  intros Hnil. unfold Client.DoTo.
  by rewrite (bind_ret _ _ _ _ _ (getClient_run w)),
       (checkInit_uninitialised w Hnil).
Qed.

Lemma Close_uninitialised (w : World) :
  a (client w) = None ∨ c (client w) = None ∨ close (client w) = None →
  Client.Close w = (Ret (Some ErrClientNotInitialized), w).
Proof.
  intros Hnil. unfold Client.Close.
  by rewrite (bind_ret _ _ _ _ _ (getClient_run w)),
       (checkInit_uninitialised w Hnil).
Qed.

(** X2: on a client whose agent, connection or channel is nil, the methods
    that start with [checkInit] ([StartTo], [Start], [Indicate], [DoTo],
    [Do], [Close]) return [ErrClientNotInitialized] and change nothing.  The
    other methods have no such guard: with a nil agent [Collect] panics on
    the nil interface, and with a nil connection so do [ReadFrom], [WriteTo]
    and [LocalAddr]. *)
Theorem uninitialised_client_guarded_or_panics (w : World) :
  a (client w) = None ∨ c (client w) = None ∨ close (client w) = None →
  (∀ m raddr d h,
     Client.StartTo m raddr d h w = (Ret (Some ErrClientNotInitialized), w))
  ∧ (∀ m d h,
       Client.Start m d h w = (Ret (Some ErrClientNotInitialized), w))
  ∧ (∀ m, Client.Indicate m w = (Ret (Some ErrClientNotInitialized), w))
  ∧ (∀ m raddr d,
       Client.DoTo m raddr d w
         = (Ret (None, Some ErrClientNotInitialized), w))
  ∧ (∀ m d,
       Client.Do m d w = (Ret (None, Some ErrClientNotInitialized), w))
  ∧ Client.Close w = (Ret (Some ErrClientNotInitialized), w)
  ∧ (a (client w) = None →
     ∀ gcTime, Client.Collect gcTime w = (Panic NilDereference, w))
  ∧ (c (client w) = None →
     (∀ Decode fuel b,
        Client.ReadFrom Decode (S fuel) b w = (Panic NilDereference, w))
     ∧ (∀ b addr, Client.WriteTo b addr w = (Panic NilDereference, w))
     ∧ Client.LocalAddr w = (Panic NilDereference, w)).
Proof.
  intros Hnil. repeat match goal with |- _ ∧ _ => split end.
  - intros. by apply StartTo_uninitialised.
  - intros. unfold Client.Start.
    rewrite (bind_ret _ _ _ _ _ (getClient_run w)).
    by apply StartTo_uninitialised.
  - intros. unfold Client.Indicate, Client.Start.
    rewrite (bind_ret _ _ _ _ _ (getClient_run w)).
    by apply StartTo_uninitialised.
  - intros. by apply DoTo_uninitialised.
  - intros. unfold Client.Do.
    rewrite (bind_ret _ _ _ _ _ (getClient_run w)).
    by apply DoTo_uninitialised.
  - by apply Close_uninitialised.
  - intros Ha gcTime. unfold Client.Collect, Client.a_Collect, agent.
    by rewrite Ha.
  - intros Hc. split; [|split].
    + intros Decode fuel b.
      cbn [Client.ReadFrom]. unfold Client.ReadFrom_body.
      assert (Hread : Client.c_ReadFrom b w = (Panic NilDereference, w)).
      { unfold Client.c_ReadFrom, conn. by rewrite Hc. }
      by rewrite (bind_panic _ _ _ _ _ (bind_panic _ _ _ _ _ Hread)).
    + intros b addr. unfold Client.WriteTo, Client.c_WriteTo, conn.
      by rewrite Hc.
    + unfold Client.LocalAddr.
      apply bind_panic. unfold conn. by rewrite Hc.
Qed.

(** [TestClientCheckInit]: [Indicate] and [Do] on [&Client{}]. *)
Lemma uninitialised_client_guarded_or_panics_witness :
  let w := {| client := zeroClient; trace := [] |} in
  (a (client w) = None ∨ c (client w) = None ∨ close (client w) = None)
  ∧ Client.Indicate request w = (Ret (Some ErrClientNotInitialized), w)
  ∧ Client.Do request zero_time w
    = (Ret (None, Some ErrClientNotInitialized), w)
  ∧ Client.Collect 0 w = (Panic NilDereference, w).
Proof.
  cbv zeta.
  assert (Hnil : a (client {| client := zeroClient; trace := [] |}) = None
                 ∨ c (client {| client := zeroClient; trace := [] |}) = None
                 ∨ close (client {| client := zeroClient; trace := [] |}) = None)
    by (by left).
  split; [exact Hnil|].
  destruct (uninitialised_client_guarded_or_panics _ Hnil)
    as (_ & _ & HInd & _ & HDo & _ & HCollect & _).
  split; [apply HInd|]. split; [apply HDo|]. by apply HCollect.
Defined.

(** ** What the options leave in the client *)

Lemma applyOptions_cons (o : ClientOption) (options : list ClientOption)
    (cl : Client) :
  applyOptions (o :: options) cl = applyOptions options (o cl).2.
Proof. reflexivity. Qed.

Lemma applyOptions_fields (os : list StandardOption) :
  ∀ cl : Client,
    let cl' := applyOptions (map toOption os) cl in
    close cl' = close cl ∧ closed cl' = closed cl ∧ wg cl' = wg cl
    ∧ gcRate cl' = default (gcRate cl) (lastRate os)
    ∧ serveraddr cl' = default (serveraddr cl) (lastServer os)
    ∧ a cl' = default (a cl) (lastAgent os).
Proof.
  induction os as [|o os IH]; intros cl; [by cbn|].
  cbv zeta. cbn [map]. rewrite applyOptions_cons.
  destruct (IH (toOption o cl).2) as (H1 & H2 & H3 & H4 & H5 & H6).
  rewrite H1, H2, H3, H4, H5, H6. cbn [lastRate lastServer lastAgent].
  unfold toOption, WithTimeoutRate, WithAgent, WithPacketConn, WithSTUNServer.
  destruct o as [d|ag|pc|addr]; destruct (c cl);
    destruct (lastRate os), (lastServer os), (lastAgent os);
    cbn; by repeat split.
Qed.

Lemma NewClient_standard (os : list StandardOption) (cl : Client) :
  NewClient (map toOption os) = (Some cl, None) →
  ∃ pc, firstConn os = Some pc
        ∧ cl = match a (applyOptions (map toOption os) emptyClient) with
               | None => set_a (Some defaultAgent)
                           (applyOptions (map toOption os) emptyClient)
               | Some _ => applyOptions (map toOption os) emptyClient
               end.
Proof.
  unfold NewClient. pose proof (applyOptions_conn os emptyClient) as Hc.
  cbn [c emptyClient] in Hc. rewrite Hc.
  destruct (firstConn os) as [pc|]; [|discriminate].
  intros Hnew. exists pc. split; [done|].
  destruct (a (applyOptions (map toOption os) emptyClient)); congruence.
Qed.

(** X3: a client that [NewClient] builds from the options of the package is
    initialised and open: it has a connection, an agent and an open channel,
    its closed flag is not set and its wait group is at zero, so none of its
    methods answers [ErrClientNotInitialized] or [ErrClientClosed] before a
    [Close]. *)
Theorem NewClient_is_initialised_and_open
    (os : list StandardOption) (cl : Client) :
  NewClient (map toOption os) = (Some cl, None) →
  Client.checkInit (Some cl) = None
  ∧ closed cl = false ∧ close cl = Some false ∧ wg cl = 0
  ∧ ∃ ag pc, usable {| client := cl; trace := [] |} ag pc.
Proof.
  intros Hnew. destruct (NewClient_standard os cl Hnew) as (pc & Hfirst & ->).
  destruct (applyOptions_fields os emptyClient) as (H1 & H2 & H3 & _).
  pose proof (applyOptions_conn os emptyClient) as Hc.
  cbn [c emptyClient] in Hc. rewrite Hfirst in Hc.
  cbn [close closed wg emptyClient] in H1, H2, H3.
  assert (Hi : Client.checkInit
                 (Some match a (applyOptions (map toOption os) emptyClient) with
                       | None => set_a (Some defaultAgent)
                                   (applyOptions (map toOption os) emptyClient)
                       | Some _ => applyOptions (map toOption os) emptyClient
                       end) = None).
  { unfold Client.checkInit.
    destruct (a (applyOptions (map toOption os) emptyClient)) eqn:Ha;
      cbn [c a close set_a]; by rewrite Hc, ?Ha, H1. }
  split; [exact Hi|].
  split; [|split; [|split]].
  - by destruct (a (applyOptions (map toOption os) emptyClient)).
  - by destruct (a (applyOptions (map toOption os) emptyClient)).
  - by destruct (a (applyOptions (map toOption os) emptyClient)).
  - by apply (checkInit_usable {| client := _; trace := [] |}).
Qed.

(** [TestClientGC]: an agent, a connection and a timeout rate. *)
Lemma NewClient_is_initialised_and_open_witness :
  let os := [OptAgent (Some (agentOf noErrors)); OptPacketConn (Some okConn);
             OptTimeoutRate 1000000] in
  let cl := client (worldOf (map toOption os)) in
  NewClient (map toOption os) = (Some cl, None)
  ∧ Client.checkInit (Some cl) = None
  ∧ closed cl = false ∧ close cl = Some false ∧ wg cl = 0.
Proof.
  cbv zeta. split; [reflexivity|].
  destruct (NewClient_is_initialised_and_open
              [OptAgent (Some (agentOf noErrors)); OptPacketConn (Some okConn);
               OptTimeoutRate 1000000]
              _ eq_refl) as (H1 & H2 & H3 & H4 & _).
  by repeat split.
Defined.

(** X4: among the options of the package the later one wins for the timeout
    rate, the server address and the agent, while for the connection the
    first non-nil one wins.  Without a [WithTimeoutRate] the rate is 100 ms,
    without a [WithSTUNServer] there is no server address, and without a
    [WithAgent], or when the last one carries nil, the agent is a new
    [Agent]. *)
Theorem NewClient_later_option_wins
    (os : list StandardOption) (cl : Client) :
  NewClient (map toOption os) = (Some cl, None) →
  gcRate cl = default defaultTimeoutRate (lastRate os)
  ∧ serveraddr cl = default None (lastServer os)
  ∧ a cl = Some match lastAgent os with
                | Some (Some ag) => ag
                | _ => defaultAgent
                end
  ∧ c cl = firstConn os.
Proof.
  intros Hnew. destruct (NewClient_standard os cl Hnew) as (pc & Hfirst & ->).
  destruct (applyOptions_fields os emptyClient) as (_ & _ & _ & H4 & H5 & H6).
  pose proof (applyOptions_conn os emptyClient) as Hc.
  cbn [c emptyClient] in Hc.
  cbn [gcRate serveraddr a emptyClient] in H4, H5, H6.
  rewrite H6.
  destruct (lastAgent os) as [[ag|]|]; cbn [default a c gcRate serveraddr set_a];
    rewrite ?H4, ?H5, ?Hc; by repeat split.
Qed.

(** Two rates, two servers and two connections: the second rate, the second
    server and the first connection are kept. *)
Lemma NewClient_later_option_wins_witness :
  let os := [OptTimeoutRate 1; OptPacketConn (Some okConn);
             OptSTUNServer (Some "a:1"%string); OptTimeoutRate 2;
             OptPacketConn (Some pingConn);
             OptSTUNServer (Some "b:2"%string)] in
  let cl := client (worldOf (map toOption os)) in
  NewClient (map toOption os) = (Some cl, None)
  ∧ gcRate cl = 2 ∧ serveraddr cl = Some "b:2"%string
  ∧ a cl = Some defaultAgent ∧ c cl = Some okConn.
Proof.
  cbv zeta. split; [reflexivity|].
  exact (NewClient_later_option_wins
           [OptTimeoutRate 1; OptPacketConn (Some okConn);
            OptSTUNServer (Some "a:1"%string); OptTimeoutRate 2;
            OptPacketConn (Some pingConn);
            OptSTUNServer (Some "b:2"%string)] _ eq_refl).
Defined.

(** ** Dial *)

Lemma isUDP_not_empty (network : string) :
  isUDP network = true → (network =? "")%string = false.
Proof.
  destruct (String.eqb_spec network "") as [->|]; [|done].
  cbn. discriminate.
Qed.

Lemma firstConn_app (os rest : list StandardOption) (pc : PacketConn.t) :
  firstConn (os ++ OptPacketConn (Some pc) :: rest)
    = Some (default pc (firstConn os)).
Proof.
  induction os as [|o os IH]; [done|].
  cbn [app firstConn]. destruct o as [d|ag|[pc'|]|addr]; try exact IH. done.
Qed.

Lemma last_app_dialled (os : list StandardOption) conn raddr :
  lastServer (os ++ [OptPacketConn conn; OptSTUNServer raddr]) = Some raddr
  ∧ lastRate (os ++ [OptPacketConn conn; OptSTUNServer raddr]) = lastRate os
  ∧ lastAgent (os ++ [OptPacketConn conn; OptSTUNServer raddr]) = lastAgent os.
Proof.
  induction os as [|o os (IH1 & IH2 & IH3)]; [done|].
  cbn [app lastServer lastRate lastAgent]. by rewrite IH1, IH2, IH3.
Qed.

Section Dial.

Variable ResolveUDPAddr : string → string → option Addr * option error.
Variable ListenUDP : string → option Addr → option PacketConn.t * option error.
Variable foreign : error → string.

(** X5: [Dial] never returns a client unless the network is "udp", "udp4" or
    "udp6".  For any other non-empty network it fails on the first address
    it has to resolve, with "network type not supported" after the prefix
    "localaddr: " or "stunserveraddress: ", whatever the resolver and the
    listener would do.  The empty network is resolved as "udp" but is then
    refused by [listen]: when the addresses resolve, [Dial] fails with
    "listen: network type not supported". *)
Theorem Dial_needs_a_udp_network
    (network localaddress stunserveraddress : string)
    (options : list ClientOption) :
  isUDP network = false →
  (Dial ResolveUDPAddr ListenUDP foreign network localaddress
     stunserveraddress options).1 = None
  ∧ (network ≠ ""%string →
     Dial ResolveUDPAddr ListenUDP foreign network localaddress
       stunserveraddress options
     = (None,
        Some (errors_New
                ((if (localaddress =? "")%string then "stunserveraddress: "
                  else "localaddr: ") ++ "network type not supported")%string)))
  ∧ (network = ""%string →
     ∀ laddr raddr,
       (localaddress = ""%string ∧ laddr = None
        ∨ localaddress ≠ ""%string
          ∧ ResolveUDPAddr "udp" localaddress = (laddr, None)) →
       ResolveUDPAddr "udp"
         (if (stunserveraddress =? "")%string then DefaultSTUNServer
          else stunserveraddress) = (raddr, None) →
       Dial ResolveUDPAddr ListenUDP foreign network localaddress
         stunserveraddress options
       = (None, Some (errors_New "listen: network type not supported"))).
Proof.
  intros Hudp. split; [|split].
  - unfold Dial, ResolveAddr, listen. rewrite Hudp.
    destruct (String.eqb_spec network "") as [->|Hne].
    + cbn [isUDP]. change (isUDP DefaultNet) with true. cbv iota.
      destruct (negb (localaddress =? "")%string).
      * destruct (ResolveUDPAddr DefaultNet localaddress) as [laddr [e|]];
          [done|].
        by destruct (ResolveUDPAddr DefaultNet _) as [raddr [e|]].
      * by destruct (ResolveUDPAddr DefaultNet _) as [raddr [e|]].
    + rewrite Hudp. by destruct (negb (localaddress =? "")%string).
  - intros Hne. unfold Dial, ResolveAddr.
    destruct (String.eqb_spec network "") as [->|_]; [done|].
    rewrite Hudp. by destruct (localaddress =? "")%string.
  - intros -> laddr raddr Hlocal Hremote. unfold Dial, ResolveAddr, listen.
    cbn [String.eqb]. change (isUDP DefaultNet) with true.
    change (isUDP "") with false. cbv iota.
    change DefaultNet with "udp"%string. rewrite Hremote.
    destruct Hlocal as [[-> ->]|[Hne Hlocal]].
    + reflexivity.
    + destruct (String.eqb_spec localaddress "") as [?|_]; [done|].
      cbn [negb]. by rewrite Hlocal.
Qed.

(** X6: when [Dial] gets through (a udp network, addresses that resolve, a
    socket), the client it returns is the one [NewClient] makes of the
    caller's options followed by the socket and the resolved server address.
    So with the options of the package the server address is always the one
    [Dial] resolved, whatever [WithSTUNServer] the caller passed, while a
    connection among the caller's options is kept in place of the socket
    that [Dial] opened; the client is initialised and open. *)
Theorem Dial_appends_its_own_options
    (network localaddress stunserveraddress : string)
    (os : list StandardOption) laddr raddr (pc : PacketConn.t) :
  isUDP network = true →
  (localaddress = ""%string ∧ laddr = None
   ∨ localaddress ≠ ""%string
     ∧ ResolveUDPAddr network localaddress = (laddr, None)) →
  ResolveUDPAddr network
    (if (stunserveraddress =? "")%string then DefaultSTUNServer
     else stunserveraddress) = (raddr, None) →
  ListenUDP network laddr = (Some pc, None) →
  ∃ cl,
    Dial ResolveUDPAddr ListenUDP foreign network localaddress
      stunserveraddress (map toOption os) = (Some cl, None)
    ∧ NewClient (map toOption
                   (os ++ [OptPacketConn (Some pc); OptSTUNServer raddr]))
      = (Some cl, None)
    ∧ serveraddr cl = raddr
    ∧ c cl = Some (default pc (firstConn os))
    ∧ gcRate cl = default defaultTimeoutRate (lastRate os)
    ∧ closed cl = false ∧ close cl = Some false.
Proof.
  intros Hudp Hlocal Hremote Hlisten.
  pose proof (isUDP_not_empty network Hudp) as Hne.
  assert (HDial : Dial ResolveUDPAddr ListenUDP foreign network localaddress
                    stunserveraddress (map toOption os)
                  = NewClient (map toOption
                      (os ++ [OptPacketConn (Some pc); OptSTUNServer raddr]))).
  { unfold Dial, ResolveAddr, listen. rewrite Hne, Hudp, Hremote.
    rewrite List.map_app. cbn [map toOption].
    destruct Hlocal as [[-> ->]|[Hnel Hlocal]].
    - cbn [String.eqb negb]. by rewrite Hlisten.
    - destruct (String.eqb_spec localaddress "") as [?|_]; [done|].
      cbn [negb]. by rewrite Hlocal, Hlisten. }
  rewrite HDial.
  set (os' := os ++ [OptPacketConn (Some pc); OptSTUNServer raddr]).
  pose proof (applyOptions_conn os' emptyClient) as Hc.
  cbn [c emptyClient] in Hc. unfold os' in Hc at 2.
  rewrite firstConn_app in Hc.
  destruct (NewClient_cases (map toOption os'))
    as [[Hnone _]|(cl & pc' & Hnew & _ & _)]; [congruence|].
  exists cl. split; [exact Hnew|]. split; [exact Hnew|].
  destruct (NewClient_standard os' cl Hnew) as (_ & _ & ->).
  destruct (applyOptions_fields os' emptyClient) as (H1 & H2 & _ & H4 & H5 & _).
  destruct (last_app_dialled os (Some pc) raddr) as (L1 & L2 & _).
  fold os' in L1, L2. rewrite L2 in H4. rewrite L1 in H5.
  cbn [close closed gcRate serveraddr emptyClient default] in H1, H2, H4, H5.
  destruct (a (applyOptions (map toOption os') emptyClient));
    cbn [serveraddr c gcRate closed close set_a];
    rewrite H1, H2, H4, H5, Hc; by repeat split.
Qed.


End Dial.

(** [TestDialError]: [Dial("bad?network", "", "?????")]; and the call of
    integration-test/main.go, [Dial("", "", "stun-server:3478")], with a
    resolver and a listener that succeed. *)
Lemma Dial_needs_a_udp_network_witness :
  let resolve := λ (_ address : string), (Some address, None) in
  let listenUDP := λ (_ : string) (_ : option Addr), (Some okConn, None) in
  let foreign := λ _ : error, ""%string in
  isUDP "bad?network" = false ∧ isUDP "" = false
  ∧ Dial resolve listenUDP foreign "bad?network" "" "?????" []
    = (None,
       Some (errors_New "stunserveraddress: network type not supported"))
  ∧ Dial resolve listenUDP foreign "" "" "stun-server:3478" []
    = (None, Some (errors_New "listen: network type not supported")).
Proof.
  cbv zeta. split; [reflexivity|]. split; [reflexivity|]. split.
  - refine (proj1 (proj2
      (Dial_needs_a_udp_network _ _ _ "bad?network" "" "?????" [] eq_refl)) _).
    discriminate.
  - refine (proj2 (proj2
      (Dial_needs_a_udp_network (λ _ address, (Some address, None)) _ _
         "" "" "stun-server:3478" [] eq_refl)) eq_refl None
      (Some "stun-server:3478"%string) _ eq_refl).
    by left.
Defined.

(** [TestDial], with a caller that also passes a server and a connection of
    its own. *)
Lemma Dial_appends_its_own_options_witness :
  let resolve := λ (_ address : string), (Some address, None) in
  let listenUDP := λ (_ : string) (_ : option Addr), (Some okConn, None) in
  let foreign := λ _ : error, ""%string in
  let os := [OptSTUNServer (Some "other:1"%string);
             OptPacketConn (Some pingConn)] in
  isUDP "udp4" = true
  ∧ ∃ cl, Dial resolve listenUDP foreign "udp4" "" "localhost:0"
            (map toOption os) = (Some cl, None)
          ∧ serveraddr cl = Some "localhost:0"%string
          ∧ c cl = Some pingConn.
Proof.
  cbv zeta. split; [reflexivity|].
  destruct (Dial_appends_its_own_options
              (λ _ address, (Some address, None))
              (λ _ _, (Some okConn, None)) (λ _, ""%string)
              "udp4" "" "localhost:0"
              [OptSTUNServer (Some "other:1"%string);
               OptPacketConn (Some pingConn)]
              None (Some "localhost:0"%string) okConn eq_refl
              (or_introl (conj eq_refl eq_refl)) eq_refl eq_refl)
    as (cl & HDial & _ & Hserver & Hconn & _).
  exists cl. by repeat split.
Defined.


(** ** The wait group *)

Lemma wg_Add_run (delta : Z) (w : World) :
  0 ≤ wg (client w) + delta →
  Client.wg_Add delta w
    = (Ret tt, {| client := set_wg (wg (client w) + delta) (client w);
                  trace := trace w |}).
Proof.
  intros H. unfold Client.wg_Add.
  rewrite (bind_ret _ _ _ _ _ (getClient_run w)).
  by rewrite (proj2 (Z.ltb_ge _ _) H).
Qed.

Lemma goroutine_endsOneLower (body : M unit) (w : World) :
  respects sameCounter body → 0 < wg (client w) →
  endsOneLower w (defer Client.wg_Done body w).
Proof.
  intros Hbody Hwg. specialize (Hbody w). unfold sameCounter in Hbody.
  unfold endsOneLower, defer, Client.wg_Done.
  destruct (body w) as [[x|p| |] w']; cbn [fst snd] in *; try exact Hbody;
    rewrite (wg_Add_run (-1) w') by lia; cbn; lia.
Qed.

(** X8: the wait group is kept in balance.  [HandleTransactions] raises its
    counter by two and starts the two goroutines.  Each of them lowers it by
    one when it ends, by a return as well as by a panic, and not before:
    while a goroutine is still going the counter is where it was.  [Close]
    and [StartTo] leave the counter alone. *)
Theorem goroutines_balance_the_wait_group
    (Decode : Message → option error * Message) (w : World) :
  0 ≤ wg (client w) →
  Client.HandleTransactions w
    = (Ret tt, {| client := set_wg (wg (client w) + 2) (client w);
                  trace := trace w ++ [GoReadUntilClosed;
                                       GoCollectUntilClosed] |})
  ∧ (∀ w1 : World, 0 < wg (client w1) →
       (∀ fuel rounds,
          endsOneLower w1 (Client.readUntilClosed Decode fuel rounds w1))
       ∧ (∀ sched, endsOneLower w1 (Client.collectUntilClosed sched w1)))
  ∧ respects sameCounter Client.Close
  ∧ (∀ m raddr d h, respects sameCounter (Client.StartTo m raddr d h)).
Proof.
  intros Hwg. pose proof sameCounter_invariant as HR.
  split; [|split; [|split]].
  - unfold Client.HandleTransactions, Client.ReadUntilClosed,
      Client.CollectUntilClosed.
    mstep ltac:(erewrite bind_ret; [|apply wg_Add_run; lia]; apply record_run).
    mstep ltac:(apply wg_Add_run; cbn; lia).
    rewrite record_run. cbn. rewrite <- app_assoc.
    by replace (wg (client w) + 1 + 1) with (wg (client w) + 2) by lia.
  - intros w1 Hwg1. split.
    + intros fuel rounds. apply goroutine_endsOneLower; [|exact Hwg1].
      by apply respects_readUntilClosed_loop.
    + intros sched. apply goroutine_endsOneLower; [|exact Hwg1].
      pose proof (respects_collectUntilClosed_loop sameCounter sched HR).
      respects_all.
  - by apply respects_Close.
  - intros. by apply respects_StartTo.
Qed.

(** [TestClientGC]: the client before and after [HandleTransactions], and
    the read goroutine once the channel is closed. *)
Lemma goroutines_balance_the_wait_group_witness :
  let w := worldOf [WithAgent (Some (agentOf noErrors));
                    WithPacketConn (Some okConn);
                    WithTimeoutRate 1000000] in
  0 ≤ wg (client w)
  ∧ wg (client (Client.HandleTransactions w).2) = 2
  ∧ 0 < wg (client signalledWorld)
  ∧ endsOneLower signalledWorld
      (Client.readUntilClosed Decode 1 1 signalledWorld)
  ∧ endsOneLower signalledWorld
      (Client.collectUntilClosed [caseTick 7; caseClose] signalledWorld).
Proof.
  cbv zeta.
  assert (Hwg : 0 ≤ wg (client (worldOf [WithAgent (Some (agentOf noErrors));
                                         WithPacketConn (Some okConn);
                                         WithTimeoutRate 1000000])))
    by (vm_compute; discriminate).
  assert (Hwg1 : 0 < wg (client signalledWorld)) by (vm_compute; reflexivity).
  destruct (goroutines_balance_the_wait_group Decode _ Hwg)
    as (Hgo & Hend & _).
  split; [exact Hwg|]. split; [by rewrite Hgo|]. split; [exact Hwg1|].
  destruct (Hend signalledWorld Hwg1) as [Hread Hcollect].
  split; [apply Hread | apply Hcollect].
Defined.

(** ** The collector's ticker *)

Lemma collectUntilClosed_loop_panics (sched : list selectCase) :
  ∀ (w w' : World) p,
    Client.collectUntilClosed_loop sched w = (Panic p, w') →
    p = NilDereference ∨ ∃ e, p = PanicErr e.
Proof.
  induction sched as [|sel sched IH]; intros w w' p;
    cbn [Client.collectUntilClosed_loop]; [discriminate|].
  unfold mbind, M_bind.
  destruct (Client.collectUntilClosed_body sel w) as [[stop|q| |] w1] eqn:Hbody;
    try discriminate.
  - destruct stop; [discriminate|]. apply IH.
  - intros [= <- <-]. revert Hbody.
    unfold Client.collectUntilClosed_body, Client.Collect, Client.a_Collect,
      agent, closedOrPanic, mbind, M_bind.
    destruct sel as [|gcTime].
    + cbn. by destruct (close (client w)) as [[|]|].
    + destruct (a (client w)) as [v|]; [|intros [= <- _]; by left].
      destruct (ClientAgent.collect gcTime v) as [[e|] v']; [|discriminate].
      destruct (is_ErrAgentClosed (Some e)); [discriminate|].
      intros [= <- _]. right. by exists e.
Qed.

(** X9: the collector goroutine needs a positive timeout rate.  With a rate
    of zero or less, which [WithTimeoutRate] accepts, [collectUntilClosed]
    panics in [time.NewTicker] before the first collection: no call reaches
    the agent and only the deferred [Done] has run.  With a positive rate it
    never panics that way.  A client built from the options of the package
    has such a rate exactly when its last [WithTimeoutRate] carries one. *)
Theorem collector_needs_a_positive_timeout_rate
    (w : World) (sched : list selectCase) :
  0 < wg (client w) →
  (gcRate (client w) ≤ 0 →
     Client.collectUntilClosed sched w
       = (Panic NonPositiveTickerInterval,
          {| client := set_wg (wg (client w) + -1) (client w);
             trace := trace w |}))
  ∧ (0 < gcRate (client w) →
     (Client.collectUntilClosed sched w).1 ≠ Panic NonPositiveTickerInterval)
  ∧ (∀ os cl, NewClient (map toOption os) = (Some cl, None) →
       gcRate cl ≤ 0 ↔ ∃ d, lastRate os = Some d ∧ d ≤ 0).
Proof.
  intros Hwg. split; [|split].
  - intros Hrate. unfold Client.collectUntilClosed, defer.
    rewrite (bind_ret _ _ _ _ _ (getClient_run w)).
    rewrite (proj2 (Z.leb_le _ _) Hrate). unfold panic, Client.wg_Done.
    by rewrite (wg_Add_run (-1) w) by lia.
  - intros Hrate. unfold Client.collectUntilClosed, defer.
    rewrite (bind_ret _ _ _ _ _ (getClient_run w)).
    rewrite (proj2 (Z.leb_gt _ _) Hrate).
    pose proof (respects_collectUntilClosed_loop sameCounter sched
                  sameCounter_invariant w) as Hsame.
    unfold sameCounter in Hsame.
    destruct (Client.collectUntilClosed_loop sched w) as [[x|p| |] w1]
      eqn:Hloop; cbn [snd] in Hsame; unfold Client.wg_Done;
      try rewrite (wg_Add_run (-1) w1) by lia; try discriminate.
    cbn [fst]. intros [= ->].
    by destruct (collectUntilClosed_loop_panics _ _ _ _ Hloop) as [|[e ?]].
  - intros os cl Hnew.
    destruct (NewClient_standard os cl Hnew) as (pc & _ & ->).
    destruct (applyOptions_fields os emptyClient) as (_ & _ & _ & H4 & _).
    cbn [gcRate emptyClient] in H4.
    assert (Hrate : gcRate match a (applyOptions (map toOption os) emptyClient)
                           with
                           | None => set_a (Some defaultAgent)
                                       (applyOptions (map toOption os) emptyClient)
                           | Some _ => applyOptions (map toOption os) emptyClient
                           end = default defaultTimeoutRate (lastRate os)).
    { by destruct (a (applyOptions (map toOption os) emptyClient)). }
    rewrite Hrate. destruct (lastRate os) as [d|]; cbn [default].
    + split; [by exists d|]. by intros (d' & [= <-] & Hd).
    + unfold defaultTimeoutRate. split; [lia|]. by intros (d' & [=] & _).
Qed.

(** A client with [WithTimeoutRate(0)] on which [HandleTransactions] was
    called. *)
Lemma collector_needs_a_positive_timeout_rate_witness :
  let w := (Client.HandleTransactions
              (worldOf [WithPacketConn (Some okConn); WithTimeoutRate 0])).2 in
  0 < wg (client w) ∧ gcRate (client w) ≤ 0
  ∧ (Client.collectUntilClosed [caseTick 7; caseClose] w).1
    = Panic NonPositiveTickerInterval
  ∧ trace (Client.collectUntilClosed [caseTick 7; caseClose] w).2
    = [GoReadUntilClosed; GoCollectUntilClosed].
Proof.
  cbv zeta.
  assert (Hwg : 0 < wg (client (Client.HandleTransactions
            (worldOf [WithPacketConn (Some okConn); WithTimeoutRate 0])).2))
    by (vm_compute; reflexivity).
  assert (Hrate : gcRate (client (Client.HandleTransactions
            (worldOf [WithPacketConn (Some okConn); WithTimeoutRate 0])).2) ≤ 0)
    by (vm_compute; discriminate).
  split; [exact Hwg|]. split; [exact Hrate|].
  rewrite (proj1 (collector_needs_a_positive_timeout_rate _
                    [caseTick 7; caseClose] Hwg) Hrate).
  split; reflexivity.
Defined.

(** ** ReadFrom, as a loop *)

Section ReadFromLoop.

Variable Decode : Message → option error * Message.

Lemma ReadFrom_body_inv (b : list byte) (w w' : World)
    (r : list byte * Z * option Addr * option error + list byte) :
  Client.ReadFrom_body Decode b w = (Ret r, w') →
  match r with
  | inl (b', n, addr, None) =>
      0 ≤ n ≤ Z.of_nat (length b')
      ∧ (IsMessage (take (Z.to_nat n) b') = false
         ∨ ∃ e m', Decode (set_Raw (take (Z.to_nat n) b') new_Message)
                   = (Some e, m'))
      ∧ trace w' = trace w ++ [ConnReadFrom]
  | inl (_, _, _, Some _) => True
  | inr _ => ∃ calls, trace w' = trace w ++ calls
  end.
Proof.
  unfold Client.ReadFrom_body, Client.c_ReadFrom, conn, Client.a_Process,
    agent, sliceTo, mbind, M_bind.
  destruct (c (client w)) as [pc|]; [|discriminate].
  destruct (PacketConn.readFrom b pc) as [[[[b1 n1] addr1] [e1|]] pc1].
  { by intros [= <- <-]. }
  destruct ((0 <=? n1) && (n1 <=? Z.of_nat (length b1))) eqn:Hn;
    [|discriminate].
  apply andb_true_iff in Hn as [H0 H1].
  apply Z.leb_le in H0. apply Z.leb_le in H1.
  cbn [mret M_ret].
  destruct (IsMessage (take (Z.to_nat n1) b1)) eqn:His; cbn [negb].
  2:{ intros [= <- <-]. split; [lia|]. split; [by left|]. reflexivity. }
  destruct (Decode (set_Raw (take (Z.to_nat n1) b1) new_Message))
    as [[e|] m'] eqn:Hdec.
  { intros [= <- <-]. split; [lia|]. split; [right; by exists e, m'|].
    reflexivity. }
  cbn [client a set_c].
  destruct (a (client w)) as [ag|]; [|discriminate].
  destruct (ClientAgent.process m' ag) as [[e|] ag1].
  - by intros [= <- <-].
  - intros [= <- <-]. cbn [trace]. exists [ConnReadFrom; AgentProcess m'].
    by rewrite <- app_assoc.
Qed.


(** X10: [ReadFrom] does not return while the traffic is STUN.  As long as
    the connection delivers a datagram that passes [IsMessage] and decodes,
    and the agent's [Process] returns nil, [ReadFrom] reads and processes,
    one datagram after the other, for as many passes as it is given; neither
    the closed flag nor the channel is looked at. *)
Theorem ReadFrom_keeps_reading_STUN
    (ag : ClientAgent.t) (pc : PacketConn.t) (b : list byte) (n : Z) addr
    (m' : Message) :
  PacketConn.readFrom b pc = ((b, n, addr, None), pc) →
  0 ≤ n ≤ Z.of_nat (length b) →
  IsMessage (take (Z.to_nat n) b) = true →
  Decode (set_Raw (take (Z.to_nat n) b) new_Message) = (None, m') →
  ClientAgent.process m' ag = (None, ag) →
  ∀ (fuel : nat) (w : World),
    a (client w) = Some ag → c (client w) = Some pc →
    ∃ w', Client.ReadFrom Decode fuel b w = (OutOfFuel, w')
          ∧ trace w' = trace w ++ readsAndProcesses fuel m'
          ∧ closed (client w') = closed (client w)
          ∧ close (client w') = close (client w).
Proof.
  intros Hread Hn His Hdec Hproc.
  induction fuel as [|fuel IH]; intros w Ha Hc.
  - exists w. split; [reflexivity|]. cbn. by rewrite app_nil_r.
  - pose proof (ReadFrom_body_message Decode w ag pc b b n addr pc m' None ag
                  Ha Hc Hread Hn His Hdec Hproc) as Hbody.
    rewrite (ReadFrom_again Decode _ _ _ _ _ Hbody).
    destruct (IH (afterAgent ag (AgentProcess m') (afterConn pc ConnReadFrom w)))
      as (w' & Hrun & Htrace & Hclosed & Hclose); [reflexivity|reflexivity|].
    exists w'. split; [exact Hrun|]. rewrite Htrace, Hclosed, Hclose.
    cbn. rewrite <- !app_assoc. by repeat split.
Qed.

End ReadFromLoop.


(** [TestClient_Do]: the connection delivers the response at every read and
    the agent's [Process] returns nil; also after the closed flag is set. *)
Lemma ReadFrom_keeps_reading_STUN_witness :
  let b := responseRaw ++ replicate 12 Byte.x00 in
  let m' := (Decode (set_Raw responseRaw new_Message)).2 in
  let w := {| client :=
                set_closed true
                  (client (worldOf [WithAgent (Some (agentOf noErrors));
                                    WithPacketConn (Some okConn)]));
              trace := [] |} in
  PacketConn.readFrom b okConn = ((b, 20, None, None), okConn)
  ∧ IsMessage (take (Z.to_nat 20) b) = true
  ∧ Decode (set_Raw (take (Z.to_nat 20) b) new_Message) = (None, m')
  ∧ ClientAgent.process m' (agentOf noErrors) = (None, agentOf noErrors)
  ∧ closed (client w) = true
  ∧ ∃ w', Client.ReadFrom Decode 3 b w = (OutOfFuel, w')
          ∧ trace w' = [ConnReadFrom; AgentProcess m';
                        ConnReadFrom; AgentProcess m';
                        ConnReadFrom; AgentProcess m'].
Proof.
  cbv zeta.
  assert (Hn : 0 ≤ 20 ≤ Z.of_nat (length (responseRaw ++ replicate 12 Byte.x00)))
    by (cbn; lia).
  split; [reflexivity|]. split; [reflexivity|]. split; [reflexivity|].
  split; [reflexivity|]. split; [reflexivity|].
  destruct (ReadFrom_keeps_reading_STUN Decode (agentOf noErrors) okConn
              (responseRaw ++ replicate 12 Byte.x00) 20 None
              (Decode (set_Raw responseRaw new_Message)).2
              eq_refl Hn eq_refl eq_refl eq_refl 3%nat
              {| client :=
                   set_closed true
                     (client (worldOf [WithAgent (Some (agentOf noErrors));
                                       WithPacketConn (Some okConn)]));
                 trace := [] |} eq_refl eq_refl)
    as (w' & Hrun & Htrace & _).
  exists w'. split; [exact Hrun | exact Htrace].
Defined.

(** ** DoTo and its handler *)

(** X12: [DoTo] returns what its handler was fired with.  When [StartTo]
    fails, [DoTo] returns that error and no message.  When [StartTo] went
    through and the handler is fired with an event, [DoTo] returns the
    event's message and the event's error; when it is not fired, [DoTo]
    stays in [wait].  On every return the handler that goes back to the pool
    is reset: no callback, not processed. *)
Theorem DoTo_returns_what_the_handler_got
    (w w1 : World) (m : Message) raddr d (err : option error)
    (h : CallbackWaitHandler.t (option error * option Message)) :
  Client.checkInit (Some (client w)) = None →
  Client.StartTo m raddr d (Some callbackWaitHandler) w = (Ret err, w1) →
  CallbackWaitHandler.processed h = false →
  match err with
  | Some e =>
      (∀ fired, DoTo_fired m raddr d fired h w
                = (Ret ((None, Some e), CallbackWaitHandler.New), w1))
      ∧ Client.DoTo m raddr d w = (Ret (None, Some e), w1)
  | None =>
      (∀ event,
         DoTo_fired m raddr d (Some event) h w
         = (Ret ((EvMessage event, EvError event), CallbackWaitHandler.New),
            w1))
      ∧ DoTo_fired m raddr d None h w = (Blocked, w1)
      ∧ Client.DoTo m raddr d w = (Blocked, w1)
  end.
Proof.
  intros Hi HStart Hh.
  assert (HDoTo : Client.DoTo m raddr d w
                  = match err with
                    | Some _ => (Ret (None, err), w1)
                    | None => (Blocked, w1)
                    end).
  { unfold Client.DoTo.
    rewrite (bind_ret _ _ _ _ _ (getClient_run w)), Hi.
    rewrite (bind_ret _ _ _ _ _ HStart). by destruct err. }
  assert (Hfired : ∀ fired, DoTo_fired m raddr d fired h w
            = match err with
              | Some _ => (Ret ((None, err), CallbackWaitHandler.New), w1)
              | None =>
                  match fired with
                  | Some event =>
                      (Ret ((EvMessage event, EvError event),
                            CallbackWaitHandler.New), w1)
                  | None => (Blocked, w1)
                  end
              end).
  { intros fired. unfold DoTo_fired.
    rewrite (bind_ret _ _ _ _ _ (getClient_run w)), Hi.
    cbn [CallbackWaitHandler.setCallback].
    rewrite (bind_ret _ _ _ _ _ HStart).
    destruct err as [e|]; [reflexivity|].
    destruct fired as [event|]; [reflexivity|].
    unfold CallbackWaitHandler.wait. cbn. by rewrite Hh. }
  destruct err as [e|].
  - split; [intros fired; apply Hfired | exact HDoTo].
  - split; [intros event; apply (Hfired (Some event))|].
    split; [apply (Hfired None) | exact HDoTo].
Qed.

(** [TestClient_Do]: the request goes out and the handler is fired with the
    response; and [TestClientConnErr]: the write fails. *)
Lemma DoTo_returns_what_the_handler_got_witness :
  let w := worldOf [WithAgent (Some (agentOf noErrors));
                    WithPacketConn (Some okConn)] in
  let w' := worldOf [WithAgent (Some (agentOf noErrors));
                     WithPacketConn (Some pipeClosedConn)] in
  let response := (Decode (set_Raw responseRaw new_Message)).2 in
  let event := {| EvTransactionID := TransactionID request;
                  EvMessage := Some response; EvError := None |} in
  Client.checkInit (Some (client w)) = None
  ∧ (Client.StartTo request stunServer 0 (Some callbackWaitHandler) w).1
    = Ret None
  ∧ (DoTo_fired request stunServer 0 (Some event) CallbackWaitHandler.New w).1
    = Ret ((Some response, None), CallbackWaitHandler.New)
  ∧ (DoTo_fired request stunServer 0 (Some event) CallbackWaitHandler.New w').1
    = Ret ((None, Some io_ErrClosedPipe), CallbackWaitHandler.New).
Proof.
  cbv zeta. split; [reflexivity|]. split; [reflexivity|]. split.
  - rewrite (proj1 (DoTo_returns_what_the_handler_got
                      (worldOf [WithAgent (Some (agentOf noErrors));
                                WithPacketConn (Some okConn)])
                      _ request stunServer 0 None CallbackWaitHandler.New
                      eq_refl eq_refl eq_refl)).
    reflexivity.
  - rewrite (proj1 (DoTo_returns_what_the_handler_got
                      (worldOf [WithAgent (Some (agentOf noErrors));
                                WithPacketConn (Some pipeClosedConn)])
                      _ request stunServer 0 (Some io_ErrClosedPipe)
                      CallbackWaitHandler.New eq_refl eq_refl eq_refl)).
    reflexivity.
Defined.
